(** * A shallow embedding of the question-answering core of [src/main.py]

    Python's [str] is modelled as a list of Unicode code points. The
    character properties that [str.lower], [str.isspace], [str.strip] and
    [str.split] use are written out as range tables taken from the Unicode
    database of CPython 3.11 (Unicode 14.0.0); [str.lower] is the full
    lowercase mapping of CPython, with its context rule for the capital
    sigma. String literals of the source are decoded from UTF-8, and
    [hashlib.md5(..).hexdigest()] is MD5 over the UTF-8 encoding.
    Python floats are modelled as rationals [Q] (with binary64 rounding
    written out where the code computes with floats, in [/metrics]). The
    module globals [PDD_DATA], [CHROMA_AVAILABLE], [client] and
    [openai_client] are fields of an environment record; the global cache
    and its two counters form an explicit state threaded through
    [ask_question]. *)

From Stdlib Require Import Ascii String List Bool NArith ZArith QArith Qround Lqa
  Sorted.
From stdpp Require Import base gmap strings.
Import ListNotations.

Open Scope Q_scope.

(** A code point. *)
Abbreviation str := (list N).

(* ------------------------------------------------------------------ *)
(** ** Unicode character data (CPython 3.11, Unicode 14.0.0) *)

(** The simple lowercase mapping [ch.lower()] of every code point that
    lowercases to one other code point, as runs [(lo, hi, step, target)]:
    [c] in [lo..hi] with [(c - lo) mod step = 0] lowercases to
    [target + (c - lo)]. U+0130 is the only code point whose lowercase has
    two code points. *)
Definition lower_table : list (N * N * N * N) := ([
  (65, 90, 1, 97); (192, 214, 1, 224); (216, 222, 1, 248); (256, 302, 2, 257);
  (306, 310, 2, 307); (313, 327, 2, 314); (330, 374, 2, 331); (376, 376, 1, 255);
  (377, 381, 2, 378); (385, 385, 1, 595); (386, 388, 2, 387); (390, 390, 1, 596);
  (391, 391, 1, 392); (393, 394, 1, 598); (395, 395, 1, 396); (398, 398, 1, 477);
  (399, 399, 1, 601); (400, 400, 1, 603); (401, 401, 1, 402); (403, 403, 1, 608);
  (404, 404, 1, 611); (406, 406, 1, 617); (407, 407, 1, 616); (408, 408, 1, 409);
  (412, 412, 1, 623); (413, 413, 1, 626); (415, 415, 1, 629); (416, 420, 2, 417);
  (422, 422, 1, 640); (423, 423, 1, 424); (425, 425, 1, 643); (428, 428, 1, 429);
  (430, 430, 1, 648); (431, 431, 1, 432); (433, 434, 1, 650); (435, 437, 2, 436);
  (439, 439, 1, 658); (440, 440, 1, 441); (444, 444, 1, 445); (452, 452, 1, 454);
  (453, 453, 1, 454); (455, 455, 1, 457); (456, 456, 1, 457); (458, 458, 1, 460);
  (459, 475, 2, 460); (478, 494, 2, 479); (497, 497, 1, 499); (498, 500, 2, 499);
  (502, 502, 1, 405); (503, 503, 1, 447); (504, 542, 2, 505); (544, 544, 1, 414);
  (546, 562, 2, 547); (570, 570, 1, 11365); (571, 571, 1, 572); (573, 573, 1, 410);
  (574, 574, 1, 11366); (577, 577, 1, 578); (579, 579, 1, 384); (580, 580, 1, 649);
  (581, 581, 1, 652); (582, 590, 2, 583); (880, 882, 2, 881); (886, 886, 1, 887);
  (895, 895, 1, 1011); (902, 902, 1, 940); (904, 906, 1, 941); (908, 908, 1, 972);
  (910, 911, 1, 973); (913, 929, 1, 945); (931, 939, 1, 963); (975, 975, 1, 983);
  (984, 1006, 2, 985); (1012, 1012, 1, 952); (1015, 1015, 1, 1016); (1017, 1017, 1, 1010);
  (1018, 1018, 1, 1019); (1021, 1023, 1, 891); (1024, 1039, 1, 1104); (1040, 1071, 1, 1072);
  (1120, 1152, 2, 1121); (1162, 1214, 2, 1163); (1216, 1216, 1, 1231); (1217, 1229, 2, 1218);
  (1232, 1326, 2, 1233); (1329, 1366, 1, 1377); (4256, 4293, 1, 11520); (4295, 4295, 1, 11559);
  (4301, 4301, 1, 11565); (5024, 5103, 1, 43888); (5104, 5109, 1, 5112); (7312, 7354, 1, 4304);
  (7357, 7359, 1, 4349); (7680, 7828, 2, 7681); (7838, 7838, 1, 223); (7840, 7934, 2, 7841);
  (7944, 7951, 1, 7936); (7960, 7965, 1, 7952); (7976, 7983, 1, 7968); (7992, 7999, 1, 7984);
  (8008, 8013, 1, 8000); (8025, 8031, 2, 8017); (8040, 8047, 1, 8032); (8072, 8079, 1, 8064);
  (8088, 8095, 1, 8080); (8104, 8111, 1, 8096); (8120, 8121, 1, 8112); (8122, 8123, 1, 8048);
  (8124, 8124, 1, 8115); (8136, 8139, 1, 8050); (8140, 8140, 1, 8131); (8152, 8153, 1, 8144);
  (8154, 8155, 1, 8054); (8168, 8169, 1, 8160); (8170, 8171, 1, 8058); (8172, 8172, 1, 8165);
  (8184, 8185, 1, 8056); (8186, 8187, 1, 8060); (8188, 8188, 1, 8179); (8486, 8486, 1, 969);
  (8490, 8490, 1, 107); (8491, 8491, 1, 229); (8498, 8498, 1, 8526); (8544, 8559, 1, 8560);
  (8579, 8579, 1, 8580); (9398, 9423, 1, 9424); (11264, 11311, 1, 11312); (11360, 11360, 1, 11361);
  (11362, 11362, 1, 619); (11363, 11363, 1, 7549); (11364, 11364, 1, 637); (11367, 11371, 2, 11368);
  (11373, 11373, 1, 593); (11374, 11374, 1, 625); (11375, 11375, 1, 592); (11376, 11376, 1, 594);
  (11378, 11378, 1, 11379); (11381, 11381, 1, 11382); (11390, 11391, 1, 575); (11392, 11490, 2, 11393);
  (11499, 11501, 2, 11500); (11506, 11506, 1, 11507); (42560, 42604, 2, 42561); (42624, 42650, 2, 42625);
  (42786, 42798, 2, 42787); (42802, 42862, 2, 42803); (42873, 42875, 2, 42874); (42877, 42877, 1, 7545);
  (42878, 42886, 2, 42879); (42891, 42891, 1, 42892); (42893, 42893, 1, 613); (42896, 42898, 2, 42897);
  (42902, 42920, 2, 42903); (42922, 42922, 1, 614); (42923, 42923, 1, 604); (42924, 42924, 1, 609);
  (42925, 42925, 1, 620); (42926, 42926, 1, 618); (42928, 42928, 1, 670); (42929, 42929, 1, 647);
  (42930, 42930, 1, 669); (42931, 42931, 1, 43859); (42932, 42946, 2, 42933); (42948, 42948, 1, 42900);
  (42949, 42949, 1, 642); (42950, 42950, 1, 7566); (42951, 42953, 2, 42952); (42960, 42960, 1, 42961);
  (42966, 42968, 2, 42967); (42997, 42997, 1, 42998); (65313, 65338, 1, 65345); (66560, 66599, 1, 66600);
  (66736, 66771, 1, 66776); (66928, 66938, 1, 66967); (66940, 66954, 1, 66979); (66956, 66962, 1, 66995);
  (66964, 66965, 1, 67003); (68736, 68786, 1, 68800); (71840, 71871, 1, 71872); (93760, 93791, 1, 93792);
  (125184, 125217, 1, 125218)
])%N.

(** The code points [c] with [chr(c).isspace()]. *)
Definition space_ranges : list (N * N) := ([
  (9, 13); (28, 32); (133, 133); (160, 160); (5760, 5760);
  (8192, 8202); (8232, 8233); (8239, 8239); (8287, 8287); (12288, 12288)
])%N.

(** Case-ignorable code points (Unicode's [Case_Ignorable]) and cased
    code points that are not case-ignorable: what the capital-sigma rule
    of [str.lower] looks at ([_PyUnicode_IsCaseIgnorable],
    [_PyUnicode_IsCased]). *)
Definition case_ignorable_ranges : list (N * N) := ([
  (39, 39); (46, 46); (58, 58); (94, 94); (96, 96);
  (168, 168); (173, 173); (175, 175); (180, 180); (183, 184);
  (688, 879); (884, 885); (890, 890); (900, 901); (903, 903);
  (1155, 1161); (1369, 1369); (1375, 1375); (1425, 1469); (1471, 1471);
  (1473, 1474); (1476, 1477); (1479, 1479); (1524, 1524); (1536, 1541);
  (1552, 1562); (1564, 1564); (1600, 1600); (1611, 1631); (1648, 1648);
  (1750, 1757); (1759, 1768); (1770, 1773); (1807, 1807); (1809, 1809);
  (1840, 1866); (1958, 1968); (2027, 2037); (2042, 2042); (2045, 2045);
  (2070, 2093); (2137, 2139); (2184, 2184); (2192, 2193); (2200, 2207);
  (2249, 2306); (2362, 2362); (2364, 2364); (2369, 2376); (2381, 2381);
  (2385, 2391); (2402, 2403); (2417, 2417); (2433, 2433); (2492, 2492);
  (2497, 2500); (2509, 2509); (2530, 2531); (2558, 2558); (2561, 2562);
  (2620, 2620); (2625, 2626); (2631, 2632); (2635, 2637); (2641, 2641);
  (2672, 2673); (2677, 2677); (2689, 2690); (2748, 2748); (2753, 2757);
  (2759, 2760); (2765, 2765); (2786, 2787); (2810, 2815); (2817, 2817);
  (2876, 2876); (2879, 2879); (2881, 2884); (2893, 2893); (2901, 2902);
  (2914, 2915); (2946, 2946); (3008, 3008); (3021, 3021); (3072, 3072);
  (3076, 3076); (3132, 3132); (3134, 3136); (3142, 3144); (3146, 3149);
  (3157, 3158); (3170, 3171); (3201, 3201); (3260, 3260); (3263, 3263);
  (3270, 3270); (3276, 3277); (3298, 3299); (3328, 3329); (3387, 3388);
  (3393, 3396); (3405, 3405); (3426, 3427); (3457, 3457); (3530, 3530);
  (3538, 3540); (3542, 3542); (3633, 3633); (3636, 3642); (3654, 3662);
  (3761, 3761); (3764, 3772); (3782, 3782); (3784, 3789); (3864, 3865);
  (3893, 3893); (3895, 3895); (3897, 3897); (3953, 3966); (3968, 3972);
  (3974, 3975); (3981, 3991); (3993, 4028); (4038, 4038); (4141, 4144);
  (4146, 4151); (4153, 4154); (4157, 4158); (4184, 4185); (4190, 4192);
  (4209, 4212); (4226, 4226); (4229, 4230); (4237, 4237); (4253, 4253);
  (4348, 4348); (4957, 4959); (5906, 5908); (5938, 5939); (5970, 5971);
  (6002, 6003); (6068, 6069); (6071, 6077); (6086, 6086); (6089, 6099);
  (6103, 6103); (6109, 6109); (6155, 6159); (6211, 6211); (6277, 6278);
  (6313, 6313); (6432, 6434); (6439, 6440); (6450, 6450); (6457, 6459);
  (6679, 6680); (6683, 6683); (6742, 6742); (6744, 6750); (6752, 6752);
  (6754, 6754); (6757, 6764); (6771, 6780); (6783, 6783); (6823, 6823);
  (6832, 6862); (6912, 6915); (6964, 6964); (6966, 6970); (6972, 6972);
  (6978, 6978); (7019, 7027); (7040, 7041); (7074, 7077); (7080, 7081);
  (7083, 7085); (7142, 7142); (7144, 7145); (7149, 7149); (7151, 7153);
  (7212, 7219); (7222, 7223); (7288, 7293); (7376, 7378); (7380, 7392);
  (7394, 7400); (7405, 7405); (7412, 7412); (7416, 7417); (7468, 7530);
  (7544, 7544); (7579, 7679); (8125, 8125); (8127, 8129); (8141, 8143);
  (8157, 8159); (8173, 8175); (8189, 8190); (8203, 8207); (8216, 8217);
  (8228, 8228); (8231, 8231); (8234, 8238); (8288, 8292); (8294, 8303);
  (8305, 8305); (8319, 8319); (8336, 8348); (8400, 8432); (11388, 11389);
  (11503, 11505); (11631, 11631); (11647, 11647); (11744, 11775); (11823, 11823);
  (12293, 12293); (12330, 12333); (12337, 12341); (12347, 12347); (12441, 12446);
  (12540, 12542); (40981, 40981); (42232, 42237); (42508, 42508); (42607, 42610);
  (42612, 42621); (42623, 42623); (42652, 42655); (42736, 42737); (42752, 42785);
  (42864, 42864); (42888, 42890); (42994, 42996); (43000, 43001); (43010, 43010);
  (43014, 43014); (43019, 43019); (43045, 43046); (43052, 43052); (43204, 43205);
  (43232, 43249); (43263, 43263); (43302, 43309); (43335, 43345); (43392, 43394);
  (43443, 43443); (43446, 43449); (43452, 43453); (43471, 43471); (43493, 43494);
  (43561, 43566); (43569, 43570); (43573, 43574); (43587, 43587); (43596, 43596);
  (43632, 43632); (43644, 43644); (43696, 43696); (43698, 43700); (43703, 43704);
  (43710, 43711); (43713, 43713); (43741, 43741); (43756, 43757); (43763, 43764);
  (43766, 43766); (43867, 43871); (43881, 43883); (44005, 44005); (44008, 44008);
  (44013, 44013); (64286, 64286); (64434, 64450); (65024, 65039); (65043, 65043);
  (65056, 65071); (65106, 65106); (65109, 65109); (65279, 65279); (65287, 65287);
  (65294, 65294); (65306, 65306); (65342, 65342); (65344, 65344); (65392, 65392);
  (65438, 65439); (65507, 65507); (65529, 65531); (66045, 66045); (66272, 66272);
  (66422, 66426); (67456, 67461); (67463, 67504); (67506, 67514); (68097, 68099);
  (68101, 68102); (68108, 68111); (68152, 68154); (68159, 68159); (68325, 68326);
  (68900, 68903); (69291, 69292); (69446, 69456); (69506, 69509); (69633, 69633);
  (69688, 69702); (69744, 69744); (69747, 69748); (69759, 69761); (69811, 69814);
  (69817, 69818); (69821, 69821); (69826, 69826); (69837, 69837); (69888, 69890);
  (69927, 69931); (69933, 69940); (70003, 70003); (70016, 70017); (70070, 70078);
  (70089, 70092); (70095, 70095); (70191, 70193); (70196, 70196); (70198, 70199);
  (70206, 70206); (70367, 70367); (70371, 70378); (70400, 70401); (70459, 70460);
  (70464, 70464); (70502, 70508); (70512, 70516); (70712, 70719); (70722, 70724);
  (70726, 70726); (70750, 70750); (70835, 70840); (70842, 70842); (70847, 70848);
  (70850, 70851); (71090, 71093); (71100, 71101); (71103, 71104); (71132, 71133);
  (71219, 71226); (71229, 71229); (71231, 71232); (71339, 71339); (71341, 71341);
  (71344, 71349); (71351, 71351); (71453, 71455); (71458, 71461); (71463, 71467);
  (71727, 71735); (71737, 71738); (71995, 71996); (71998, 71998); (72003, 72003);
  (72148, 72151); (72154, 72155); (72160, 72160); (72193, 72202); (72243, 72248);
  (72251, 72254); (72263, 72263); (72273, 72278); (72281, 72283); (72330, 72342);
  (72344, 72345); (72752, 72758); (72760, 72765); (72767, 72767); (72850, 72871);
  (72874, 72880); (72882, 72883); (72885, 72886); (73009, 73014); (73018, 73018);
  (73020, 73021); (73023, 73029); (73031, 73031); (73104, 73105); (73109, 73109);
  (73111, 73111); (73459, 73460); (78896, 78904); (92912, 92916); (92976, 92982);
  (92992, 92995); (94031, 94031); (94095, 94111); (94176, 94177); (94179, 94180);
  (110576, 110579); (110581, 110587); (110589, 110590); (113821, 113822); (113824, 113827);
  (118528, 118573); (118576, 118598); (119143, 119145); (119155, 119170); (119173, 119179);
  (119210, 119213); (119362, 119364); (121344, 121398); (121403, 121452); (121461, 121461);
  (121476, 121476); (121499, 121503); (121505, 121519); (122880, 122886); (122888, 122904);
  (122907, 122913); (122915, 122916); (122918, 122922); (123184, 123197); (123566, 123566);
  (123628, 123631); (125136, 125142); (125252, 125259); (127995, 127999); (917505, 917505);
  (917536, 917631); (917760, 917999)
])%N.

Definition cased_ranges : list (N * N) := ([
  (65, 90); (97, 122); (170, 170); (181, 181); (186, 186);
  (192, 214); (216, 246); (248, 442); (444, 447); (452, 659);
  (661, 687); (880, 883); (886, 887); (891, 893); (895, 895);
  (902, 902); (904, 906); (908, 908); (910, 929); (931, 1013);
  (1015, 1153); (1162, 1327); (1329, 1366); (1376, 1416); (4256, 4293);
  (4295, 4295); (4301, 4301); (4304, 4346); (4349, 4351); (5024, 5109);
  (5112, 5117); (7296, 7304); (7312, 7354); (7357, 7359); (7424, 7467);
  (7531, 7543); (7545, 7578); (7680, 7957); (7960, 7965); (7968, 8005);
  (8008, 8013); (8016, 8023); (8025, 8025); (8027, 8027); (8029, 8029);
  (8031, 8061); (8064, 8116); (8118, 8124); (8126, 8126); (8130, 8132);
  (8134, 8140); (8144, 8147); (8150, 8155); (8160, 8172); (8178, 8180);
  (8182, 8188); (8450, 8450); (8455, 8455); (8458, 8467); (8469, 8469);
  (8473, 8477); (8484, 8484); (8486, 8486); (8488, 8488); (8490, 8493);
  (8495, 8500); (8505, 8505); (8508, 8511); (8517, 8521); (8526, 8526);
  (8544, 8575); (8579, 8580); (9398, 9449); (11264, 11387); (11390, 11492);
  (11499, 11502); (11506, 11507); (11520, 11557); (11559, 11559); (11565, 11565);
  (42560, 42605); (42624, 42651); (42786, 42863); (42865, 42887); (42891, 42894);
  (42896, 42954); (42960, 42961); (42963, 42963); (42965, 42969); (42997, 42998);
  (43002, 43002); (43824, 43866); (43872, 43880); (43888, 43967); (64256, 64262);
  (64275, 64279); (65313, 65338); (65345, 65370); (66560, 66639); (66736, 66771);
  (66776, 66811); (66928, 66938); (66940, 66954); (66956, 66962); (66964, 66965);
  (66967, 66977); (66979, 66993); (66995, 67001); (67003, 67004); (68736, 68786);
  (68800, 68850); (71840, 71903); (93760, 93823); (119808, 119892); (119894, 119964);
  (119966, 119967); (119970, 119970); (119973, 119974); (119977, 119980); (119982, 119993);
  (119995, 119995); (119997, 120003); (120005, 120069); (120071, 120074); (120077, 120084);
  (120086, 120092); (120094, 120121); (120123, 120126); (120128, 120132); (120134, 120134);
  (120138, 120144); (120146, 120485); (120488, 120512); (120514, 120538); (120540, 120570);
  (120572, 120596); (120598, 120628); (120630, 120654); (120656, 120686); (120688, 120712);
  (120714, 120744); (120746, 120770); (120772, 120779); (122624, 122633); (122635, 122654);
  (125184, 125251); (127280, 127305); (127312, 127337); (127344, 127369)
])%N.

Definition in_ranges (c : N) (rs : list (N * N)) : bool :=
  existsb (fun r => (fst r <=? c)%N && (c <=? snd r)%N) rs.

Fixpoint lower_lookup (c : N) (t : list (N * N * N * N)) : option N :=
  match t with
  | [] => None
  | (lo, hi, st, tg) :: t' =>
      if (lo <=? c)%N && (c <=? hi)%N && ((c - lo) mod st =? 0)%N
      then Some (tg + (c - lo))%N else lower_lookup c t'
  end.

(** The full lowercase mapping of one code point ([_PyUnicode_ToLowerFull]). *)
Definition lower_full (c : N) : list N :=
  if (c =? 304)%N then [105; 775]%N
  else match lower_lookup c lower_table with
       | Some d => [d]
       | None => [c]
       end.

Definition is_space (c : N) : bool := in_ranges c space_ranges.
Definition is_case_ignorable (c : N) : bool := in_ranges c case_ignorable_ranges.
Definition is_cased (c : N) : bool := in_ranges c cased_ranges.

(* ------------------------------------------------------------------ *)
(** ** Python string primitives *)

Fixpoint skip_case_ignorable (s : str) : str :=
  match s with
  | [] => []
  | c :: s' => if is_case_ignorable c then skip_case_ignorable s' else s
  end.

(** Whether the first code point of [s] that is not case-ignorable is
    cased (the two scans of [handle_capital_sigma], [s] being read away
    from the sigma). *)
Definition cased_next (s : str) : bool :=
  match skip_case_ignorable s with
  | [] => false
  | c :: _ => is_cased c
  end.

(** [handle_capital_sigma]: final sigma when preceded by a cased letter
    and not followed by one; [before] is reversed. *)
Definition final_sigma (before after : str) : bool :=
  cased_next before && negb (cased_next after).

Definition lower_one (before : str) (c : N) (after : str) : list N :=
  if (c =? 931)%N then [if final_sigma before after then 962 else 963]%N
  else lower_full c.

(** [str.lower()] ([do_lower] of [unicodeobject.c]); [before] holds the
    code points already read, reversed. *)
Fixpoint lower_aux (before s : str) : str :=
  match s with
  | [] => []
  | c :: s' => lower_one before c s' ++ lower_aux (c :: before) s'
  end.

Definition lower (s : str) : str := lower_aux [] s.

Fixpoint lstrip (s : str) : str :=
  match s with
  | [] => []
  | c :: s' => if is_space c then lstrip s' else s
  end.

(** [str.strip()] *)
Definition strip (s : str) : str := rev (lstrip (rev (lstrip s))).

(** [str.split()] with no separator: runs of whitespace separate words,
    and no empty word is produced. [cur] is the current word, reversed. *)
Fixpoint split_aux (s cur : str) : list str :=
  match s with
  | [] => match cur with [] => [] | _ => [rev cur] end
  | c :: s' =>
      if is_space c then
        match cur with
        | [] => split_aux s' []
        | _ => rev cur :: split_aux s' []
        end
      else split_aux s' (c :: cur)
  end.

Definition split (s : str) : list str := split_aux s [].

Fixpoint prefixb (p s : str) : bool :=
  match p, s with
  | [], _ => true
  | a :: p', b :: s' => (a =? b)%N && prefixb p' s'
  | _ :: _, [] => false
  end.

(** [needle in hay] for strings: substring containment; the empty string
    is contained in every string. *)
Fixpoint is_substring (needle hay : str) : bool :=
  prefixb needle hay
  || match hay with [] => false | _ :: hay' => is_substring needle hay' end.

(** UTF-8 decoding, for the string literals of the source. *)
Fixpoint utf8_decode (bs : list N) : str :=
  match bs with
  | [] => []
  | b0 :: r0 =>
      if (b0 <? 192)%N then b0 :: utf8_decode r0
      else match r0 with
      | [] => [b0]
      | b1 :: r1 =>
          if (b0 <? 224)%N then
            (N.land b0 31 * 64 + N.land b1 63)%N :: utf8_decode r1
          else match r1 with
          | [] => [b0]
          | b2 :: r2 =>
              if (b0 <? 240)%N then
                (N.land b0 15 * 4096 + N.land b1 63 * 64 + N.land b2 63)%N
                  :: utf8_decode r2
              else match r2 with
              | [] => [b0]
              | b3 :: r3 =>
                  (N.land b0 7 * 262144 + N.land b1 63 * 4096
                   + N.land b2 63 * 64 + N.land b3 63)%N :: utf8_decode r3
              end
          end
      end
  end.

Definition txt (x : string) : str :=
  utf8_decode (map N_of_ascii (list_ascii_of_string x)).

Fixpoint join (sep : str) (l : list str) : str :=
  match l with
  | [] => []
  | [x] => x
  | x :: l' => x ++ sep ++ join sep l'
  end.

(** Python's [min(a, b)]: [b] replaces [a] only when [b < a]. *)
Definition py_min (a b : Q) : Q := if Qle_bool a b then a else b.

Definition newline : str := [10%N].

(* ------------------------------------------------------------------ *)
(** ** [hashlib.md5(s.encode()).hexdigest()] *)

(** [str.encode()]: UTF-8. *)
Definition utf8_encode_char (c : N) : list N :=
  if (c <? 128)%N then [c]
  else if (c <? 2048)%N then [192 + c / 64; 128 + c mod 64]%N
  else if (c <? 65536)%N then
    [224 + c / 4096; 128 + (c / 64) mod 64; 128 + c mod 64]%N
  else [240 + c / 262144; 128 + (c / 4096) mod 64; 128 + (c / 64) mod 64;
        128 + c mod 64]%N.

Definition utf8_encode (s : str) : list N := flat_map utf8_encode_char s.

(** MD5 (RFC 1321) on bytes, with 32-bit words as [Z] reduced mod 2^32. *)
Definition md5_K : list Z := ([
  3614090360; 3905402710; 606105819; 3250441966;
  4118548399; 1200080426; 2821735955; 4249261313;
  1770035416; 2336552879; 4294925233; 2304563134;
  1804603682; 4254626195; 2792965006; 1236535329;
  4129170786; 3225465664; 643717713; 3921069994;
  3593408605; 38016083; 3634488961; 3889429448;
  568446438; 3275163606; 4107603335; 1163531501;
  2850285829; 4243563512; 1735328473; 2368359562;
  4294588738; 2272392833; 1839030562; 4259657740;
  2763975236; 1272893353; 4139469664; 3200236656;
  681279174; 3936430074; 3572445317; 76029189;
  3654602809; 3873151461; 530742520; 3299628645;
  4096336452; 1126891415; 2878612391; 4237533241;
  1700485571; 2399980690; 4293915773; 2240044497;
  1873313359; 4264355552; 2734768916; 1309151649;
  4149444226; 3174756917; 718787259; 3951481745
])%Z.


Definition w32 (x : Z) : Z := Z.land x (Z.ones 32).

Definition rotl (x n : Z) : Z :=
  w32 (Z.lor (Z.shiftl x n) (Z.shiftr x (32 - n))).

Definition md5_S (i : nat) : Z :=
  nth (i mod 4) (match Nat.div i 16 with
                 | 0%nat => [7; 12; 17; 22]
                 | 1%nat => [5; 9; 14; 20]
                 | 2%nat => [4; 11; 16; 23]
                 | _ => [6; 10; 15; 21] end)%Z 0%Z.

Fixpoint le_bytes (n : nat) (x : Z) : list Z :=
  match n with
  | O => []
  | S n' => (x mod 256)%Z :: le_bytes n' (x / 256)%Z
  end.

Fixpoint le_word (bs : list Z) : Z :=
  match bs with
  | [] => 0%Z
  | b :: bs' => (b + 256 * le_word bs')%Z
  end.

Fixpoint words (n : nat) (bs : list Z) : list Z :=
  match n with
  | O => []
  | S n' => le_word (firstn 4 bs) :: words n' (skipn 4 bs)
  end.

Definition md5_pad (msg : list Z) : list Z :=
  let L := Z.of_nat (length msg) in
  msg ++ [128%Z] ++ repeat 0%Z (Z.to_nat ((55 - L) mod 64))
      ++ le_bytes 8 (8 * L).

Definition md5_step (M : list Z) (abcd : Z * Z * Z * Z) (i : nat)
  : Z * Z * Z * Z :=
  let '(a, b, c, d) := abcd in
  let '(f, g) :=
    match Nat.div i 16 with
    | 0%nat => (Z.lor (Z.land b c) (Z.land (Z.lxor b (Z.ones 32)) d), i)
    | 1%nat => (Z.lor (Z.land d b) (Z.land (Z.lxor d (Z.ones 32)) c),
                Nat.modulo (5 * i + 1) 16)
    | 2%nat => (Z.lxor b (Z.lxor c d), Nat.modulo (3 * i + 5) 16)
    | _ => (Z.lxor c (Z.lor b (Z.lxor d (Z.ones 32))), Nat.modulo (7 * i) 16)
    end in
  let f := w32 (f + a + nth i md5_K 0 + nth g M 0)%Z in
  (d, w32 (b + rotl f (md5_S i))%Z, b, c).

Definition md5_block (abcd : Z * Z * Z * Z) (block : list Z)
  : Z * Z * Z * Z :=
  let M := words 16 block in
  let '(a, b, c, d) := fold_left (md5_step M) (seq 0 64) abcd in
  let '(a0, b0, c0, d0) := abcd in
  (w32 (a0 + a), w32 (b0 + b), w32 (c0 + c), w32 (d0 + d))%Z.

Fixpoint md5_blocks (fuel : nat) (abcd : Z * Z * Z * Z) (msg : list Z)
  : Z * Z * Z * Z :=
  match fuel with
  | O => abcd
  | S fuel' =>
      match msg with
      | [] => abcd
      | _ => md5_blocks fuel' (md5_block abcd (firstn 64 msg)) (skipn 64 msg)
      end
  end.

Definition md5_digest (msg : list Z) : list Z :=
  let padded := md5_pad msg in
  let '(a, b, c, d) :=
    md5_blocks (length padded)
      (1732584193, 4023233417, 2562383102, 271733878)%Z padded in
  le_bytes 4 a ++ le_bytes 4 b ++ le_bytes 4 c ++ le_bytes 4 d.

Definition hex_digit (n : Z) : ascii :=
  ascii_of_N (Z.to_N (if (n <? 10)%Z then 48 + n else 87 + n)%Z).

Definition hexdigest (bs : list Z) : string :=
  string_of_list_ascii
    (flat_map (fun b => [hex_digit (b / 16)%Z; hex_digit (b mod 16)%Z]) bs).

Definition hashlib_md5_hexdigest (s : str) : string :=
  hexdigest (md5_digest (map Z.of_N (utf8_encode s))).


(* ------------------------------------------------------------------ *)
(** ** Data *)

(** A rule of [PDD_DATA] (a JSON object with these keys). *)
Record rule := mk_rule {
  rule_id : str;
  section : str;
  title : str;
  content : str;
  keywords : list str
}.

(** The dicts [{'rule': rule, 'relevance': relevance}] built by both
    searches. *)
Record scored := mk_scored { s_rule : rule; relevance : Q }.

(** The entries of [sources] in an [Answer]. *)
Record source := mk_source {
  src_section : str; src_id : str; src_title : str; src_relevance : Q
}.

Record Answer := mk_Answer {
  answer : str; sources : list source; confidence : Q
}.

(** What [collection.query] returns: [documents] and [distances] are lists
    with one inner list per query text; a missing or empty [distances]
    (falsy in Python) is the empty list. *)
Record query_result := mk_query_result {
  documents : list (list str);
  distances : list (list Q)
}.

(** Outcome of [client.get_collection(...).query(...)]. *)
Inductive chroma_outcome :=
| ChromaRaises
| ChromaReturns (qr : query_result).

(** Outcome of [openai_client.chat.completions.create(...)]: an exception,
    or a response whose [message.content] may be [None]. *)
Inductive gen_outcome :=
| GenRaises
| GenContent (c : option str).

Record env := mk_env {
  PDD_DATA : list rule;
  CHROMA_AVAILABLE : bool;
  client : bool;
  (** the vector collection queried with [(question, n_results)] *)
  chroma_query : str -> nat -> chroma_outcome;
  (** [None] when no OpenAI client is configured; otherwise the outcome
      for a given user message *)
  openai_client : option (str -> gen_outcome)
}.

(* ------------------------------------------------------------------ *)
(** ** [simple_search]: keyword scoring over [PDD_DATA] *)

(** The [for keyword in keywords] loop: [0.3] per keyword contained in the
    lowercased question. *)
Definition keyword_score (q_lower : str) (kws : list str) : Q :=
  fold_left
    (fun acc keyword => if is_substring (lower keyword) q_lower
                        then acc + (3 # 10) else acc)
    kws 0.

(** [relevance] as computed for one rule, before the [min(.., 1.0)]. *)
Definition rule_relevance (q_lower : str) (r : rule) : Q :=
  let t := lower (title r) in
  let c := lower (content r) in
  let rel := keyword_score q_lower (keywords r) in
  let rel := if existsb (fun word => is_substring word q_lower) (split t)
             then rel + (5 # 10) else rel in
  if existsb (fun word => is_substring word q_lower) (split c)
  then rel + (2 # 10) else rel.

(** The loop building [results]: rules with [relevance > 0], in corpus
    order, with the relevance capped by [min(relevance, 1.0)]. *)
Fixpoint collect (q_lower : str) (rules : list rule) : list scored :=
  match rules with
  | [] => []
  | r :: rest =>
      let rel := rule_relevance q_lower r in
      if Qle_bool rel 0 then collect q_lower rest
      else mk_scored r (py_min rel 1) :: collect q_lower rest
  end.

(** [sorted(results, key=lambda x: x['relevance'], reverse=True)]: Python's
    sort is stable also with [reverse=True], so equal keys keep their
    order. Written as an insertion sort: [x] goes before the first element
    whose key is not larger than its own. *)
Fixpoint insert_desc (x : scored) (l : list scored) : list scored :=
  match l with
  | [] => [x]
  | y :: l' =>
      if Qle_bool (relevance y) (relevance x) then x :: l
      else y :: insert_desc x l'
  end.

Fixpoint sort_desc (l : list scored) : list scored :=
  match l with
  | [] => []
  | x :: l' => insert_desc x (sort_desc l')
  end.

Definition simple_search (data : list rule) (question : str)
  (n_results : nat) : list scored :=
  firstn n_results (sort_desc (collect (lower question) data)).

(* ------------------------------------------------------------------ *)
(** ** [chroma_search] and [search_pdd] *)

(** [for rule in PDD_DATA: if rule['content'] in doc or rule['title'] in
    doc: ... break] *)
Fixpoint find_rule (doc : str) (rules : list rule) : option rule :=
  match rules with
  | [] => None
  | r :: rest =>
      if is_substring (content r) doc || is_substring (title r) doc
      then Some r else find_rule doc rest
  end.

(** The [for i, doc in enumerate(query_results['documents'][0])] loop;
    [None] is an exception (an [IndexError] on [distances[0][i]]), which
    leaves the loop and is caught by the [except] of [chroma_search]. *)
Fixpoint chroma_loop (data : list rule) (dists : list (list Q))
  (docs : list str) (i : nat) : option (list scored) :=
  match docs with
  | [] => Some []
  | doc :: docs' =>
      match find_rule doc data with
      | None => chroma_loop data dists docs' (S i)
      | Some r =>
          match match dists with
                | [] => Some 1
                | d0 :: _ => nth_error d0 i
                end with
          | None => None
          | Some distance =>
              match chroma_loop data dists docs' (S i) with
              | None => None
              | Some rest => Some (mk_scored r (1 - py_min distance 1) :: rest)
              end
          end
      end
  end.

Definition chroma_search (e : env) (question : str) (n_results : nat)
  : list scored :=
  if negb (client e) then []
  else
    match chroma_query e question n_results with
    | ChromaRaises => []
    | ChromaReturns qr =>
        match documents qr with
        | [] => []
        | docs :: _ =>
            match chroma_loop (PDD_DATA e) (distances qr) docs 0 with
            | None => []
            | Some results => results
            end
        end
    end.

Definition search_pdd (e : env) (question : str) (n_results : nat)
  : list scored :=
  if CHROMA_AVAILABLE e then
    match chroma_search e question n_results with
    | [] => simple_search (PDD_DATA e) question n_results
    | results => results
    end
  else simple_search (PDD_DATA e) question n_results.

(* ------------------------------------------------------------------ *)
(** ** The answer built by [ask_question] from the search results *)

Definition NOT_FOUND_ANSWER : str :=
  txt "В базе данных нет информации по этому вопросу. Пожалуйста, уточните вопрос или обратитесь к официальным источникам ПДД.".

Definition not_found_result : Answer := mk_Answer NOT_FOUND_ANSWER [] 0.

Definition to_source (x : scored) : source :=
  mk_source (section (s_rule x)) (rule_id (s_rule x)) (title (s_rule x))
            (relevance x).

Definition context_part (x : scored) : str :=
  title (s_rule x) ++ txt ": " ++ content (s_rule x).

Definition total_relevance (results : list scored) : Q :=
  fold_left (fun acc x => acc + relevance x) results 0.

Definition user_message (context_parts : list str) (question : str) : str :=
  txt "Контекст ПДД:" ++ newline ++ join newline context_parts
  ++ newline ++ newline ++ txt "Вопрос: " ++ question.

(** The [try] around the OpenAI call: any exception gives [None]. *)
Definition generate (oc : option (str -> gen_outcome)) (msg : str)
  : option str :=
  match oc with
  | None => None
  | Some f => match f msg with GenRaises => None | GenContent c => c end
  end.

Definition fallback_answer (context_parts : list str) : str :=
  txt "Найдено в ПДД РК:" ++ newline ++ newline
  ++ join newline context_parts.

(** Lines 270-341 of [ask_question]: the not-found answer, or the sources,
    the (generated or extractive) answer and the confidence. *)
Definition compose (oc : option (str -> gen_outcome)) (question : str)
  (search_results : list scored) : Answer :=
  match search_results with
  | [] => not_found_result
  | _ =>
      let srcs := map to_source search_results in
      let context_parts := map context_part search_results in
      let total := total_relevance search_results in
      let ans :=
        match generate oc (user_message context_parts question) with
        | Some ((_ :: _) as a) => a
        | _ => fallback_answer context_parts   (* [if not answer] *)
        end in
      let conf :=
        py_min (total / inject_Z (Z.of_nat (length search_results))) 1 in
      mk_Answer ans srcs conf
  end.

(* ------------------------------------------------------------------ *)
(** ** The cache and [ask_question] *)

Record state := mk_state {
  answer_cache : gmap string Answer;
  cache_hits : nat;
  cache_misses : nat
}.

Inductive response :=
| Ok (a : Answer)
| HTTPException (status_code : nat) (detail : str).

Section Ask.

(** [hashlib.md5(s.encode()).hexdigest()] *)
Variable md5_hexdigest : str -> string.

Definition get_cache_key (question : str) : string :=
  md5_hexdigest (strip (lower question)).

Definition ask_question (e : env) (raw : str) (st : state)
  : response * state :=
  let question := strip raw in
  match question with
  | [] => (HTTPException 400 (txt "Question cannot be empty"), st)
  | _ =>
      if Nat.ltb 500 (length question) then
        (HTTPException 400 (txt "Question too long (max 500 chars)"), st)
      else
        let cache_key := get_cache_key question in
        match answer_cache st !! cache_key with
        | Some a =>
            (Ok a, mk_state (answer_cache st) (S (cache_hits st))
                            (cache_misses st))
        | None =>
            let search_results := search_pdd e question 3 in
            let result := compose (openai_client e) question search_results in
            (Ok result,
             mk_state (<[cache_key := result]> (answer_cache st))
                      (cache_hits st) (S (cache_misses st)))
        end
  end.

End Ask.

(* ------------------------------------------------------------------ *)
(** ** Predicates, spec-side definitions and sample inputs used below *)

(** Ways the semantic path yields no result. *)
Inductive semantic_unavailable (e : env) (q : str) (n : nat) : Prop :=
| su_no_module : CHROMA_AVAILABLE e = false -> semantic_unavailable e q n
| su_no_client : client e = false -> semantic_unavailable e q n
| su_query_raises :
    chroma_query e q n = ChromaRaises -> semantic_unavailable e q n
| su_loop_raises : forall qr docs rest,
    chroma_query e q n = ChromaReturns qr ->
    documents qr = docs :: rest ->
    chroma_loop (PDD_DATA e) (distances qr) docs 0 = None ->
    semantic_unavailable e q n
| su_no_documents : forall qr,
    chroma_query e q n = ChromaReturns qr ->
    (documents qr = [] \/ exists rest, documents qr = [] :: rest) ->
    semantic_unavailable e q n
| su_no_hit : forall qr docs rest,
    chroma_query e q n = ChromaReturns qr ->
    documents qr = docs :: rest ->
    chroma_loop (PDD_DATA e) (distances qr) docs 0 = Some [] ->
    semantic_unavailable e q n.

(** A question [ask_question] rejects: empty after [strip()], or longer
    than 500 characters after it. *)
Definition invalid_question (raw : str) : bool :=
  match strip raw with
  | [] => true
  | q => Nat.ltb 500 (length q)
  end.

Definition all_space (w : str) : Prop := Forall (fun c => is_space c = true) w.

(** Two code points with the same full lowercase mapping. *)
Definition same_up_to_case (a b : N) : Prop := lower_full a = lower_full b.

(** [q2] differs from [q1] only by letter case and by the whitespace
    around it. *)
Definition case_ws_variant (q1 q2 : str) : Prop :=
  exists w1 c1 w2 w3 c2 w4,
    q1 = w1 ++ c1 ++ w2 /\ q2 = w3 ++ c2 ++ w4 /\
    all_space w1 /\ all_space w2 /\ all_space w3 /\ all_space w4 /\
    Forall2 same_up_to_case c1 c2.

(** [q] has no capital sigma U+03A3, the one code point whose lowercase
    depends on its neighbours. *)
Definition no_capital_sigma (q : str) : bool :=
  forallb (fun c => negb (c =? 931)%N) q.

(** Where the distance of a semantic hit comes from: the default [1.0]
    when [distances] is falsy, or an entry of [distances[0]]. *)
Definition distance_origin (dists : list (list Q)) (d : Q) : Prop :=
  (dists = [] /\ d = 1) \/ (exists ds rest, dists = ds :: rest /\ In d ds).

(** The distance the code reads for the document at index [j] of
    [documents[0]]: [distances[0][j]], or [1.0] when [distances] is
    falsy. *)
Definition distance_at (dists : list (list Q)) (j : nat) (d : Q) : Prop :=
  match dists with
  | [] => d = 1
  | d0 :: _ => nth_error d0 j = Some d
  end.

(** A small corpus used by the concrete checks below. *)
Definition ex_rule1 : rule :=
  mk_rule (txt "13.7") (txt "13") (txt "Roundabout")
          (txt "yield on the circle") [txt "circle"].

Definition ex_rule2 : rule :=
  mk_rule (txt "10.1") (txt "10") (txt "Speed")
          (txt "limit in town") [txt "speed"].

Definition ex_corpus : list rule := [ex_rule1; ex_rule2].

(** An environment whose vector collection always answers [qr]. *)
Definition env_with_chroma (qr : query_result) : env :=
  mk_env ex_corpus true true (fun _ _ => ChromaReturns qr) None.

Fixpoint sum_relevance (l : list scored) : Q :=
  match l with
  | [] => 0
  | x :: l' => relevance x + sum_relevance l'
  end.

(** Clamping to [0, 1], as the spec words it. *)
Definition clamp01 (x : Q) : Q :=
  if Qle_bool x 0 then 0 else if Qle_bool 1 x then 1 else x.

(** Adjacent hits are in non-increasing order of relevance. *)
Fixpoint sorted_desc (l : list scored) : bool :=
  match l with
  | a :: (b :: _) as t => Qle_bool (relevance b) (relevance a) && sorted_desc t
  | _ => true
  end.

(** Ties are in corpus order: for every relevance value [k], the rules of
    the hits of relevance [k] form a subsequence of the corpus. *)
Definition ties_in_corpus_order (corpus : list rule) (l : list scored) : Prop :=
  forall k, map s_rule (List.filter (fun x => Qeq_bool (relevance x) k) l)
              `sublist_of` corpus.

Definition ranked (corpus : list rule) (n : nat) (l : list scored) : Prop :=
  (length l <= n)%nat /\ sorted_desc l = true /\ ties_in_corpus_order corpus l.

Definition hd_le (z : scored) (l : list scored) : Prop :=
  match l with [] => True | y :: _ => relevance y <= relevance z end.

(** The relevance score in the words of the specification (section 4.1):
    0.3 per keyword contained in the lowercased question, a flat 0.5 if
    some title token is contained in it, a flat 0.2 if some content token
    is, the total clamped to at most 1.0. *)
Definition spec_score (question : str) (d : rule) : Q :=
  let q := lower question in
  let hits := length (List.filter (fun k => is_substring (lower k) q) (keywords d)) in
  let title_bonus :=
    if existsb (fun t => is_substring t q) (split (lower (title d)))
    then 1 # 2 else 0 in
  let content_bonus :=
    if existsb (fun t => is_substring t q) (split (lower (content d)))
    then 1 # 5 else 0 in
  let total := (3 # 10) * inject_Z (Z.of_nat hits) + title_bonus + content_bonus in
  if Qle_bool total 1 then total else 1.

(** The relevance of [simple_search] before the cap, in closed form. *)
Definition raw_spec_total (question : str) (d : rule) : Q :=
  let q := lower question in
  (3 # 10) * inject_Z (Z.of_nat
     (length (List.filter (fun k => is_substring (lower k) q) (keywords d))))
  + (if existsb (fun t => is_substring t q) (split (lower (title d)))
     then 1 # 2 else 0)
  + (if existsb (fun t => is_substring t q) (split (lower (content d)))
     then 1 # 5 else 0).

(** Only the lexical search is available. *)
Definition lexical_env : env :=
  mk_env ex_corpus false false (fun _ _ => ChromaRaises) None.

Definition empty_state : state := mk_state ∅ 0 0.

Definition c5_q1 : str := txt "Who yields on the circle?".
Definition c5_q2 : str := txt "  WHO YIELDS ON THE CIRCLE?   ".

Definition c5_answer : Answer :=
  compose (openai_client lexical_env) (strip c5_q1)
          (search_pdd lexical_env (strip c5_q1) 3).

Definition c5_state : state :=
  mk_state (<[get_cache_key hashlib_md5_hexdigest (strip c5_q1) := c5_answer]> ∅) 0 1.


(** A question matching both sample rules, and a generator that answers. *)
Definition c7_q : str := txt "speed on the circle".

Definition c7_generator : option (str -> gen_outcome) :=
  Some (fun _ => GenContent (Some (txt "ok"))).

(** A collection answer with a document matching no rule between two that
    match, each with its own distance. *)
Definition c8_qr : query_result :=
  mk_query_result [[txt "Speed. limit in town"; txt "nothing"; txt "Roundabout"]]
                  [[1 # 5; 9 # 10; 2 # 5]].

(* ------------------------------------------------------------------ *)
(** ** Successive requests and [/metrics] *)

(** Requests handled one after the other on the module-global cache and
    counters ([ask_question] has no [await], so requests do not
    interleave). *)
Fixpoint run_asks (md5 : str -> string) (e : env) (qs : list str) (st : state)
  : list response * state :=
  match qs with
  | [] => ([], st)
  | q :: qs' =>
      let (r, st1) := ask_question md5 e q st in
      let (rs, st2) := run_asks md5 e qs' st1 in
      (r :: rs, st2)
  end.

(** Round half to even of a rational to an integer. *)
Definition round_half_even (x : Q) : Z :=
  let f := Qfloor x in
  let r := x - inject_Z f in
  if Qeq_bool r (1 # 2) then (if Z.even f then f else (f + 1)%Z)
  else if Qle_bool r (1 # 2) then f else (f + 1)%Z.

(** [x / 2 ^ e] and [m * 2 ^ e]. *)
Definition scale (x : Q) (e : Z) : Q :=
  if (e <? 0)%Z then x * inject_Z (2 ^ (- e)) else x / inject_Z (2 ^ e).

Definition unscale (m e : Z) : Q :=
  if (e <? 0)%Z then inject_Z m / inject_Z (2 ^ (- e))
  else inject_Z (m * 2 ^ e).

(** The spacing exponent of the binary64 values around a positive [x]:
    [x / 2 ^ e] lies in [[2 ^ 52, 2 ^ 53)], or [e] is the exponent [-1074]
    of the subnormal range. [e0] is an estimate from the bit lengths of
    numerator and denominator, one below or equal to it. *)
Definition double_exponent (x : Q) : Z :=
  let e0 := (Z.log2 (Qnum x) - Z.log2 (Zpos (Qden x)) - 53)%Z in
  let e1 := if Qle_bool (inject_Z (2 ^ 53)) (scale x e0) then (e0 + 1)%Z
            else e0 in
  Z.max e1 (-1074).

Definition round_pos (x : Q) : Q :=
  let e := double_exponent x in unscale (round_half_even (scale x e)) e.

(** The binary64 value nearest to [x], ties to even: the result of a
    Python float operation whose exact result is [x] (in the finite
    range; CPython's [int / int] is correctly rounded too). *)
Definition to_double (x : Q) : Q :=
  let y := Qred x in
  if Qle_bool y 0 then (if Qle_bool 0 y then 0 else - round_pos (- y))
  else round_pos y.

(** [round(x, 2)] on a float [x]: the two-digit decimal nearest to the
    exact value of [x], ties to even ([_Py_dg_dtoa] in mode 3), read back
    as a float. *)
Definition py_round2 (x : Q) : Q :=
  to_double (inject_Z (round_half_even (x * 100)) / 100).

Record metrics := mk_metrics {
  total_queries : nat;
  m_cache_hits : nat;
  m_cache_misses : nat;
  hit_rate_percent : Q;
  cache_size : nat
}.

(** [get_metrics] *)
Definition get_metrics (st : state) : metrics :=
  let total_queries := (cache_hits st + cache_misses st)%nat in
  let hit_rate :=
    if Nat.ltb 0 total_queries
    then to_double (to_double (inject_Z (Z.of_nat (cache_hits st)) /
                               inject_Z (Z.of_nat total_queries)) * 100)
    else 0 in
  mk_metrics total_queries (cache_hits st) (cache_misses st)
             (py_round2 hit_rate) (size (answer_cache st)).

(** An answer with some text and a confidence in [0, 1]. *)
Definition good_answer (a : Answer) : Prop :=
  answer a <> [] /\ 0 <= confidence a /\ confidence a <= 1.

Definition good_response (r : response) : Prop :=
  match r with Ok a => good_answer a | HTTPException _ _ => True end.

(** The relevance [simple_search] gives a rule, after [min(.., 1.0)]. *)
Definition lexical_score (question : str) (d : rule) : Q :=
  py_min (rule_relevance (lower question) d) 1.

(* ------------------------------------------------------------------ *)
(** ** [prepare_documents] of [src/prepare_data.py] *)

(** A rule as [prepare_data.py] reads it: the fields of [rule] and the
    [type] key. *)
Record typed_rule := mk_typed_rule { base : rule; rule_type : str }.

Record metadata := mk_metadata {
  md_section : str; md_type : str; md_keywords : str; md_title : str
}.

(** [f"{rule['title']}. {rule['content']}"] *)
Definition full_text (r : rule) : str := title r ++ txt ". " ++ content r.

Definition prepare_documents (rules : list typed_rule)
  : list str * list str * list metadata :=
  (map (fun tr => rule_id (base tr)) rules,
   map (fun tr => full_text (base tr)) rules,
   map (fun tr => mk_metadata (section (base tr)) (rule_type tr)
                    (join (txt ", ") (keywords (base tr))) (title (base tr)))
       rules).

(** The sample corpus as [prepare_data.py] reads it, and a collection
    answer holding its two documents in reverse order. *)
Definition ex_typed_rules : list typed_rule :=
  [mk_typed_rule ex_rule1 (txt "rule"); mk_typed_rule ex_rule2 (txt "rule")].

Definition ex_prepared_qr : query_result :=
  mk_query_result [[full_text ex_rule2; full_text ex_rule1]] [[1 # 5; 2 # 5]].

(* ================================================================== *)
(** * Properties *)

Lemma ask_question_valid md5 e raw st :
  strip raw <> [] -> (length (strip raw) <= 500)%nat ->
  ask_question md5 e raw st =
  match answer_cache st !! get_cache_key md5 (strip raw) with
  | Some a => (Ok a, mk_state (answer_cache st) (S (cache_hits st))
                              (cache_misses st))
  | None =>
      (Ok (compose (openai_client e) (strip raw) (search_pdd e (strip raw) 3)),
       mk_state (<[get_cache_key md5 (strip raw) :=
                    compose (openai_client e) (strip raw)
                            (search_pdd e (strip raw) 3)]> (answer_cache st))
                (cache_hits st) (S (cache_misses st)))
  end.
Proof.
  intros Hne Hlen. unfold ask_question.
  destruct (strip raw) as [|c q] eqn:Hs; [congruence|].
  replace (Nat.ltb 500 (length (c :: q))) with false
    by (symmetry; apply Nat.ltb_ge; exact Hlen).
  reflexivity.
Qed.

Lemma ask_question_invalid md5 e raw st :
  invalid_question raw = true ->
  exists detail, ask_question md5 e raw st = (HTTPException 400 detail, st).
Proof.
  unfold invalid_question, ask_question.
  destruct (strip raw) as [|c q]; intros H.
  - eexists; reflexivity.
  - rewrite H. eexists; reflexivity.
Qed.

(** ** C3 *)

(** C3: whenever the semantic path is absent, raises, or yields nothing,
    [search_pdd] returns exactly what [simple_search] returns on the same
    corpus, question and [n_results] (and, being a total function, raises
    nothing). *)
Theorem search_pdd_fallback_total (e : env) (q : str) (n : nat) :
  semantic_unavailable e q n ->
  search_pdd e q n = simple_search (PDD_DATA e) q n.
Proof.
  unfold search_pdd, chroma_search.
  intros [H | H | H | qr docs rest Hq Hd Hl | qr Hq Hd | qr docs rest Hq Hd Hl];
    rewrite ?H;
    destruct (CHROMA_AVAILABLE e); try reflexivity;
    destruct (client e); try reflexivity; simpl; rewrite ?Hq, ?Hd, ?Hl;
    try reflexivity.
  destruct Hd as [Hd | [rest Hd]]; rewrite Hd; reflexivity.
Qed.

(** ** C4 *)

(** C4: [ask_question] answers HTTP 400 exactly for a question that is
    empty after [strip()] or longer than 500 characters after it; it then
    leaves the cache and both counters unchanged, and its outcome does not
    depend on the corpus or on any backend (no retrieval is done). *)
Theorem ask_rejects_invalid_input md5 (e : env) (raw : str) (st : state) :
  (invalid_question raw = true <->
   exists detail, fst (ask_question md5 e raw st) = HTTPException 400 detail)
  /\ (invalid_question raw = true ->
      snd (ask_question md5 e raw st) = st /\
      forall e' : env, ask_question md5 e' raw st = ask_question md5 e raw st).
Proof.
  split; [split|].
  - intros H. destruct (ask_question_invalid md5 e raw st H) as [d Hd].
    rewrite Hd. eauto.
  - intros [d Hd]. destruct (invalid_question raw) eqn:Hi; [reflexivity|].
    exfalso. unfold invalid_question in Hi.
    rewrite (ask_question_valid md5 e raw st) in Hd.
    + destruct (answer_cache st !! _); discriminate.
    + destruct (strip raw); discriminate.
    + destruct (strip raw); [discriminate|]. apply Nat.ltb_ge. exact Hi.
  - intros H. destruct (ask_question_invalid md5 e raw st H) as [d Hd].
    rewrite Hd. split; [reflexivity|].
    intros e'. destruct (ask_question_invalid md5 e' raw st H) as [d' Hd'].
    rewrite Hd'. unfold ask_question in Hd, Hd'. unfold invalid_question in H.
    destruct (strip raw) as [|c q]; [congruence|].
    rewrite H in Hd, Hd'. congruence.
Qed.

(** ** C6 *)


(** ** C9 *)


(** ** C5 *)

Lemma lstrip_spaces_app (w x : str) : all_space w -> lstrip (w ++ x) = lstrip x.
Proof.
  induction 1 as [|c w Hc _ IH]; [reflexivity|]. simpl. rewrite Hc. exact IH.
Qed.

Lemma lstrip_app (c w : str) :
  lstrip (c ++ w) = match lstrip c with [] => lstrip w | l => l ++ w end.
Proof.
  induction c as [|a c IH]; [reflexivity|]. simpl.
  destruct (is_space a); [exact IH|reflexivity].
Qed.

Lemma lstrip_all_space (w : str) : all_space w -> lstrip w = [].
Proof. intros H. rewrite <- (app_nil_r w), lstrip_spaces_app; auto. Qed.

Lemma strip_around_spaces (w1 c w2 : str) :
  all_space w1 -> all_space w2 -> strip (w1 ++ c ++ w2) = strip c.
Proof.
  intros H1 H2. unfold strip. rewrite lstrip_spaces_app by exact H1.
  rewrite lstrip_app.
  destruct (lstrip c) as [|a l] eqn:Hc.
  - rewrite (lstrip_all_space w2 H2). reflexivity.
  - rewrite rev_app_distr, lstrip_spaces_app; [reflexivity|].
    apply Forall_rev. exact H2.
Qed.

Ltac bool_to_prop :=
  repeat match goal with
         | H : (_ && _)%bool = true |- _ => apply andb_true_iff in H as [? ?]
         | H : negb _ = true |- _ => apply negb_true_iff in H
         end.

(** *** The Unicode tables *)

(** The code points of [lo..hi]. *)
Definition range_list (lo hi : N) : list N :=
  map (fun k => (lo + N.of_nat k)%N) (seq 0 (S (N.to_nat (hi - lo)))).

Lemma in_ranges_true c rs :
  in_ranges c rs = true -> exists r, In r rs /\ (fst r <= c <= snd r)%N.
Proof.
  unfold in_ranges. intros H. apply existsb_exists in H as [r [Hr H]].
  bool_to_prop. exists r. split; [exact Hr|]. split; apply N.leb_le; assumption.
Qed.

Lemma in_range_list lo hi c : (lo <= c <= hi)%N -> In c (range_list lo hi).
Proof.
  intros [H1 H2]. unfold range_list. apply in_map_iff.
  exists (N.to_nat (c - lo)). split; [lia|]. apply in_seq. lia.
Qed.

(** A property of every code point of some ranges, checked range by
    range. *)
Lemma ranges_forall (P : N -> bool) rs c :
  forallb (fun r => forallb P (range_list (fst r) (snd r))) rs = true ->
  in_ranges c rs = true -> P c = true.
Proof.
  intros HP Hc. apply in_ranges_true in Hc as [r [Hr Hc]].
  rewrite forallb_forall in HP. specialize (HP r Hr).
  rewrite forallb_forall in HP. apply HP, in_range_list, Hc.
Qed.

Lemma space_char_facts c :
  is_space c = true ->
  lower_full c = [c] /\ (c =? 931)%N = false /\
  is_case_ignorable c = false /\ is_cased c = false.
Proof.
  intros H.
  assert (Hb : ((match lower_full c with [d] => (d =? c)%N | _ => false end)
                && negb (c =? 931)%N && negb (is_case_ignorable c)
                && negb (is_cased c)) = true).
  { apply (ranges_forall (fun c => (match lower_full c with
        | [d] => (d =? c)%N | _ => false end)
        && negb (c =? 931)%N && negb (is_case_ignorable c)
        && negb (is_cased c)) space_ranges); [|exact H].
    vm_compute. reflexivity. }
  bool_to_prop. repeat split; try assumption.
  destruct (lower_full c) as [|d [|]]; try discriminate.
  apply N.eqb_eq in H0. subst d. reflexivity.
Qed.

Lemma lower_lookup_some c t d :
  lower_lookup c t = Some d ->
  exists lo hi st tg, In (lo, hi, st, tg) t /\ (lo <= c <= hi)%N /\
                      d = (tg + (c - lo))%N.
Proof.
  induction t as [|[[[lo hi] st] tg] t IH]; cbn [lower_lookup]; [discriminate|].
  destruct ((lo <=? c)%N && (c <=? hi)%N && ((c - lo) mod st =? 0)%N) eqn:E.
  - intros H. injection H as <-. bool_to_prop.
    exists lo, hi, st, tg. split; [left; reflexivity|].
    split; [split; apply N.leb_le; assumption|reflexivity].
  - intros H. destruct (IH H) as (lo' & hi' & st' & tg' & Hin & Hr & Hd).
    exists lo', hi', st', tg'. split; [right; exact Hin|]. auto.
Qed.

(** The lowercase of a code point that is not a space is non-empty and
    holds no space. *)
Lemma lower_full_nonspace c :
  is_space c = false ->
  lower_full c <> [] /\ Forall (fun d => is_space d = false) (lower_full c).
Proof.
  intros Hc. unfold lower_full.
  destruct (c =? 304)%N; [split; [discriminate|repeat constructor]|].
  destruct (lower_lookup c lower_table) as [d|] eqn:E;
    [|split; [discriminate|repeat constructor; exact Hc]].
  split; [discriminate|]. constructor; [|constructor].
  apply lower_lookup_some in E as (lo & hi & st & tg & Hin & Hr & ->).
  assert (Hall : forallb (fun t => match t with (lo, hi, _, tg) =>
                   forallb (fun d => negb (is_space d))
                           (range_list tg (tg + (hi - lo))) end)
                 lower_table = true) by (vm_compute; reflexivity).
  rewrite forallb_forall in Hall. specialize (Hall _ Hin). cbv beta iota in Hall.
  rewrite forallb_forall in Hall.
  apply negb_true_iff, Hall, in_range_list. lia.
Qed.

Lemma lower_one_space before c after :
  is_space c = true -> lower_one before c after = [c].
Proof.
  intros H. destruct (space_char_facts c H) as (Hl & Hs & _).
  unfold lower_one. rewrite Hs. exact Hl.
Qed.

Lemma lower_one_nonspace before c after :
  is_space c = false ->
  lower_one before c after <> [] /\
  Forall (fun d => is_space d = false) (lower_one before c after).
Proof.
  intros H. unfold lower_one. destruct (c =? 931)%N.
  - split; [discriminate|]. constructor; [|constructor].
    destruct (final_sigma before after); reflexivity.
  - apply lower_full_nonspace, H.
Qed.

Lemma same_up_to_case_space a b :
  same_up_to_case a b -> is_space a = is_space b.
Proof.
  unfold same_up_to_case. intros H.
  destruct (is_space a) eqn:Ha, (is_space b) eqn:Hb; try reflexivity.
  - destruct (space_char_facts a Ha) as [Hl _].
    destruct (lower_full_nonspace b Hb) as [_ Hf].
    rewrite <- H, Hl in Hf. inversion Hf. congruence.
  - destruct (space_char_facts b Hb) as [Hl _].
    destruct (lower_full_nonspace a Ha) as [_ Hf].
    rewrite H, Hl in Hf. inversion Hf. congruence.
Qed.

(** *** [str.lower()] on whole strings *)

Lemma lower_aux_no_sigma p s :
  no_capital_sigma s = true -> lower_aux p s = flat_map lower_full s.
Proof.
  revert p. induction s as [|c s IH]; intros p H; [reflexivity|].
  cbn [no_capital_sigma forallb] in H. unfold no_capital_sigma in H.
  cbn [forallb] in H. bool_to_prop.
  cbn [lower_aux flat_map]. unfold lower_one. rewrite H.
  f_equal. apply IH. exact H0.
Qed.

Lemma lower_case (c1 c2 : str) :
  Forall2 same_up_to_case c1 c2 ->
  no_capital_sigma c1 = true -> no_capital_sigma c2 = true ->
  lower c1 = lower c2.
Proof.
  intros H H1 H2. unfold lower.
  rewrite (lower_aux_no_sigma _ _ H1), (lower_aux_no_sigma _ _ H2).
  clear H1 H2. induction H as [|a b ? ? Hab]; [reflexivity|].
  cbn [flat_map]. rewrite Hab, IHForall2. reflexivity.
Qed.

Lemma cased_next_ctx p p' s :
  cased_next p = cased_next p' -> lower_aux p s = lower_aux p' s.
Proof.
  revert p p'. induction s as [|c s IH]; intros p p' H; [reflexivity|].
  cbn [lower_aux]. f_equal.
  - unfold lower_one, final_sigma. rewrite H. reflexivity.
  - apply IH. unfold cased_next in *. cbn [skip_case_ignorable].
    destruct (is_case_ignorable c); [exact H|reflexivity].
Qed.

(** A suffix starting with a space (or empty) hides whatever follows it
    from the sigma rule. *)
Definition space_blocked (s : str) : Prop :=
  match s with [] => True | x :: _ => is_space x = true end.

Lemma cased_next_blocked r s :
  space_blocked s -> cased_next (r ++ s) = cased_next r.
Proof.
  intros Hs. induction r as [|a r IH].
  - destruct s as [|x s]; [reflexivity|]. cbn in Hs.
    destruct (space_char_facts x Hs) as (_ & _ & Hi & Hc).
    unfold cased_next. cbn [app skip_case_ignorable]. rewrite Hi. exact Hc.
  - unfold cased_next in *. cbn [app skip_case_ignorable].
    destruct (is_case_ignorable a); [exact IH|reflexivity].
Qed.

Lemma lower_aux_app_blocked p s1 s2 :
  space_blocked s2 ->
  lower_aux p (s1 ++ s2) = lower_aux p s1 ++ lower_aux (rev s1 ++ p) s2.
Proof.
  intros Hs. revert p. induction s1 as [|a s1 IH]; intros p; [reflexivity|].
  cbn [app lower_aux]. rewrite IH, <- app_assoc. f_equal.
  - unfold lower_one, final_sigma. rewrite cased_next_blocked by exact Hs.
    reflexivity.
  - cbn [rev]. rewrite <- app_assoc. reflexivity.
Qed.

Lemma lower_aux_app_spaces p w s :
  all_space w -> lower_aux p (w ++ s) = w ++ lower_aux (rev w ++ p) s.
Proof.
  intros Hw. revert p. induction Hw as [|a w0 Ha _ IH]; intros p; [reflexivity|].
  cbn [app lower_aux]. rewrite lower_one_space by exact Ha. cbn [app].
  rewrite IH. cbn [rev]. rewrite <- app_assoc. reflexivity.
Qed.

Lemma cased_next_all_space w : all_space w -> cased_next w = false.
Proof.
  intros [|x w0 Hx _]; [reflexivity|].
  destruct (space_char_facts x Hx) as (_ & _ & Hi & Hc).
  unfold cased_next. cbn [skip_case_ignorable]. rewrite Hi. exact Hc.
Qed.

(** Spaces around a string lowercase to themselves and do not change the
    lowercase of the string. *)
Lemma lower_around_spaces w1 c w2 :
  all_space w1 -> all_space w2 -> lower (w1 ++ c ++ w2) = w1 ++ lower c ++ w2.
Proof.
  intros H1 H2. unfold lower. rewrite lower_aux_app_spaces by exact H1.
  f_equal. rewrite app_nil_r.
  rewrite (cased_next_ctx (rev w1) []).
  2: { rewrite cased_next_all_space by (apply Forall_rev, H1). reflexivity. }
  rewrite lower_aux_app_blocked.
  2: { destruct H2; [exact I|assumption]. }
  f_equal. rewrite <- (app_nil_r w2) at 1.
  rewrite lower_aux_app_spaces by exact H2. apply app_nil_r.
Qed.

(** *** [str.strip()] *)

Lemma lstrip_idem (l : str) : lstrip (lstrip l) = lstrip l.
Proof.
  induction l as [|a l IH]; [reflexivity|]. cbn [lstrip].
  destruct (is_space a) eqn:Ha; [exact IH|]. cbn [lstrip]. rewrite Ha. reflexivity.
Qed.

Lemma lstrip_head (l : str) :
  lstrip l = [] \/ exists a t, lstrip l = a :: t /\ is_space a = false.
Proof.
  induction l as [|a l IH]; [left; reflexivity|]. cbn [lstrip].
  destruct (is_space a) eqn:Ha; [exact IH|]. right. exists a, l. auto.
Qed.

Lemma lstrip_snoc (l : str) (x : N) :
  is_space x = false -> exists u, lstrip (l ++ [x]) = u ++ [x].
Proof.
  intros Hx. induction l as [|a l IH].
  - exists []. cbn [app lstrip]. rewrite Hx. reflexivity.
  - cbn [app lstrip]. destruct (is_space a); [exact IH|].
    exists (a :: l). reflexivity.
Qed.

Lemma strip_lstrip (s : str) : lstrip (strip s) = strip s.
Proof.
  unfold strip. destruct (lstrip_head s) as [->|(a & t & -> & Ha)]; [reflexivity|].
  cbn [rev]. destruct (lstrip_snoc (rev t) a Ha) as [u ->].
  rewrite rev_app_distr. cbn [rev app lstrip]. rewrite Ha. reflexivity.
Qed.

Lemma strip_idem (s : str) : strip (strip s) = strip s.
Proof.
  unfold strip at 1. rewrite strip_lstrip.
  unfold strip. rewrite rev_involutive, lstrip_idem. reflexivity.
Qed.

Lemma lstrip_decompose (s : str) : exists w, all_space w /\ s = w ++ lstrip s.
Proof.
  induction s as [|a s IH]; [exists []; split; constructor|]. cbn [lstrip].
  destruct (is_space a) eqn:Ha.
  - destruct IH as [w [Hw Hs]]. exists (a :: w). split; [constructor; assumption|].
    cbn. f_equal. exact Hs.
  - exists []. split; [constructor|reflexivity].
Qed.

Lemma strip_decompose (s : str) :
  exists w1 w2, all_space w1 /\ all_space w2 /\ s = w1 ++ strip s ++ w2.
Proof.
  destruct (lstrip_decompose s) as [w1 [H1 E1]].
  destruct (lstrip_decompose (rev (lstrip s))) as [w2 [H2 E2]].
  exists w1, (rev w2). split; [exact H1|]. split; [apply Forall_rev, H2|].
  rewrite E1 at 1. f_equal. unfold strip.
  set (u := rev (lstrip s)) in *.
  replace (lstrip s) with (rev u) by (unfold u; apply rev_involutive).
  rewrite E2 at 1. rewrite rev_app_distr. reflexivity.
Qed.

Lemma strip_head (s : str) :
  strip s = [] \/ exists a t, strip s = a :: t /\ is_space a = false.
Proof. rewrite <- strip_lstrip. apply lstrip_head. Qed.

Lemma strip_last (s : str) :
  strip s = [] \/ exists m b, strip s = m ++ [b] /\ is_space b = false.
Proof.
  unfold strip. destruct (lstrip_head (rev (lstrip s))) as [->|(a & t & -> & Ha)].
  - left. reflexivity.
  - right. exists (rev t), a. auto.
Qed.

Lemma strip_keep (x : str) :
  (x = [] \/ exists a t, x = a :: t /\ is_space a = false) ->
  (x = [] \/ exists m b, x = m ++ [b] /\ is_space b = false) ->
  strip x = x.
Proof.
  intros Hh Hl. unfold strip.
  assert (Hx : lstrip x = x).
  { destruct Hh as [->|(a & t & -> & Ha)]; [reflexivity|]. cbn [lstrip]. rewrite Ha. reflexivity. }
  rewrite Hx. destruct Hl as [->|(m & b & -> & Hb)]; [reflexivity|].
  rewrite rev_app_distr. cbn [rev app lstrip]. rewrite Hb. cbn [rev app]. rewrite rev_involutive. reflexivity.
Qed.

Lemma lower_aux_last p m b :
  is_space b = false ->
  exists X Y, lower_aux p (m ++ [b]) = X ++ Y /\ Y <> [] /\
              Forall (fun d => is_space d = false) Y.
Proof.
  intros Hb. revert p. induction m as [|a m IH]; intros p.
  - exists [], (lower_one p b []). cbn [app lower_aux]. rewrite app_nil_r.
    split; [reflexivity|]. apply lower_one_nonspace, Hb.
  - destruct (IH (a :: p)) as (X & Y & E & HY). cbn [app lower_aux]. rewrite E.
    exists (lower_one p a (m ++ [b]) ++ X), Y. rewrite app_assoc. auto.
Qed.

Lemma lower_head (c : str) :
  (c = [] \/ exists a t, c = a :: t /\ is_space a = false) ->
  (lower c = [] \/ exists a t, lower c = a :: t /\ is_space a = false).
Proof.
  intros [->|(a & t & -> & Ha)]; [left; reflexivity|]. right.
  unfold lower. cbn [lower_aux].
  destruct (lower_one_nonspace [] a t Ha) as [Hne Hf].
  destruct (lower_one [] a t) as [|d l]; [congruence|].
  inversion Hf. exists d, (l ++ lower_aux [a] t). auto.
Qed.

Lemma lower_last (c : str) :
  (c = [] \/ exists m b, c = m ++ [b] /\ is_space b = false) ->
  (lower c = [] \/ exists m b, lower c = m ++ [b] /\ is_space b = false).
Proof.
  intros [->|(m & b & -> & Hb)]; [left; reflexivity|]. right.
  destruct (lower_aux_last [] m b Hb) as (X & Y & E & Hne & Hf).
  destruct (exists_last Hne) as (Y' & y & EY). subst Y.
  apply Forall_app in Hf as [_ Hf]. inversion Hf.
  exists (X ++ Y'), y. unfold lower. rewrite E, app_assoc. auto.
Qed.

(** [strip()] and [lower()] commute. *)
Lemma strip_lower (s : str) : strip (lower s) = lower (strip s).
Proof.
  destruct (strip_decompose s) as (w1 & w2 & H1 & H2 & E).
  rewrite E at 1. rewrite lower_around_spaces by assumption.
  rewrite strip_around_spaces by assumption.
  apply strip_keep; [apply lower_head, strip_head|apply lower_last, strip_last].
Qed.

Lemma no_capital_sigma_lstrip s :
  no_capital_sigma s = true -> no_capital_sigma (lstrip s) = true.
Proof.
  induction s as [|a s IH]; [auto|]. unfold no_capital_sigma in *.
  cbn [lstrip forallb]. intros H. bool_to_prop.
  destruct (is_space a); [auto|]. cbn [forallb]. rewrite H, H0. reflexivity.
Qed.

Lemma no_capital_sigma_rev s :
  no_capital_sigma (rev s) = no_capital_sigma s.
Proof.
  unfold no_capital_sigma. induction s as [|a s IH]; [reflexivity|].
  cbn [rev forallb]. rewrite forallb_app, IH. cbn [forallb].
  rewrite andb_true_r, andb_comm. reflexivity.
Qed.

Lemma no_capital_sigma_strip s :
  no_capital_sigma s = true -> no_capital_sigma (strip s) = true.
Proof.
  intros H. unfold strip. rewrite no_capital_sigma_rev.
  apply no_capital_sigma_lstrip. rewrite no_capital_sigma_rev.
  apply no_capital_sigma_lstrip, H.
Qed.

(** Boolean checks of [case_ws_variant]'s conditions, for concrete
    strings. *)
Fixpoint same_case_b (c1 c2 : str) : bool :=
  match c1, c2 with
  | [], [] => true
  | a :: c1', b :: c2' =>
      bool_decide (lower_full a = lower_full b) && same_case_b c1' c2'
  | _, _ => false
  end.

Lemma same_case_b_sound c1 c2 :
  same_case_b c1 c2 = true -> Forall2 same_up_to_case c1 c2.
Proof.
  revert c2. induction c1 as [|a c1 IH]; intros [|b c2] H; try discriminate.
  - constructor.
  - cbn [same_case_b] in H. bool_to_prop. apply bool_decide_eq_true in H.
    constructor; [exact H|apply IH, H0].
Qed.

Lemma all_space_b w : forallb is_space w = true -> all_space w.
Proof.
  intros H. apply List.Forall_forall. intros x Hx. rewrite forallb_forall in H.
  apply H, Hx.
Qed.

Lemma lstrip_case (c1 c2 : str) :
  Forall2 same_up_to_case c1 c2 -> Forall2 same_up_to_case (lstrip c1) (lstrip c2).
Proof.
  induction 1 as [|a b c1 c2 Hab Hrest IH]; [constructor|]. simpl.
  rewrite (same_up_to_case_space a b Hab).
  destruct (is_space b); [exact IH|constructor; assumption].
Qed.

Lemma rev_case (c1 c2 : str) :
  Forall2 same_up_to_case c1 c2 -> Forall2 same_up_to_case (rev c1) (rev c2).
Proof.
  induction 1; simpl; [constructor|].
  apply Forall2_app; [assumption|constructor; [assumption|constructor]].
Qed.

Lemma strip_case (c1 c2 : str) :
  Forall2 same_up_to_case c1 c2 -> Forall2 same_up_to_case (strip c1) (strip c2).
Proof.
  intros H. unfold strip. apply rev_case, lstrip_case, rev_case, lstrip_case, H.
Qed.

Lemma variant_strip (q1 q2 : str) :
  case_ws_variant q1 q2 -> Forall2 same_up_to_case (strip q1) (strip q2).
Proof.
  intros (w1 & c1 & w2 & w3 & c2 & w4 & -> & -> & H1 & H2 & H3 & H4 & Hc).
  rewrite !strip_around_spaces by assumption. apply strip_case, Hc.
Qed.

Lemma ask_question_ok_valid md5 e raw st a st' :
  ask_question md5 e raw st = (Ok a, st') ->
  strip raw <> [] /\ (length (strip raw) <= 500)%nat.
Proof.
  unfold ask_question. destruct (strip raw) as [|c q]; [discriminate|].
  destruct (Nat.ltb 500 (length (c :: q))) eqn:Hl; [discriminate|].
  intros _. split; [discriminate|]. apply Nat.ltb_ge, Hl.
Qed.

Lemma ask_question_ok_cached md5 e raw st a st' :
  ask_question md5 e raw st = (Ok a, st') ->
  answer_cache st' !! get_cache_key md5 (strip raw) = Some a.
Proof.
  intros H. destruct (ask_question_ok_valid _ _ _ _ _ _ H) as [Hne Hlen].
  rewrite (ask_question_valid md5 e raw st Hne Hlen) in H.
  destruct (answer_cache st !! _) eqn:Hc; injection H as <- <-; simpl.
  - exact Hc.
  - apply lookup_insert_eq.
Qed.

(** C5 (as amended): the cache key is the MD5 hash of [question.lower()
    .strip()]. Two questions that differ only by surrounding whitespace,
    or only by letter case and surrounding whitespace when neither holds
    a capital sigma (whose lowercase depends on the neighbouring letters),
    get the same key; after one of them has been answered, asking the
    other (in particular, asking the same question again) returns the
    very same [Answer] from the cache, adds exactly 1 to the hit counter
    and changes nothing else. *)
Theorem ask_cache_normalized_idempotent md5 (e : env) (q1 q2 : str)
  (st st' : state) (a : Answer) :
  case_ws_variant q1 q2 ->
  strip q1 = strip q2 \/
  (no_capital_sigma q1 = true /\ no_capital_sigma q2 = true) ->
  get_cache_key md5 (strip q1) = get_cache_key md5 (strip q2) /\
  (ask_question md5 e q1 st = (Ok a, st') ->
   ask_question md5 e q2 st' =
     (Ok a, mk_state (answer_cache st') (S (cache_hits st')) (cache_misses st'))).
Proof.
  intros Hv Hsig. pose proof (variant_strip q1 q2 Hv) as Hs.
  assert (Hkey : get_cache_key md5 (strip q1) = get_cache_key md5 (strip q2)).
  { destruct Hsig as [Heq|[Hn1 Hn2]]; [rewrite Heq; reflexivity|].
    unfold get_cache_key. f_equal. f_equal.
    apply lower_case; [exact Hs|apply no_capital_sigma_strip; assumption..]. }
  split; [exact Hkey|]. intros H.
  pose proof (ask_question_ok_cached _ _ _ _ _ _ H) as Hc.
  destruct (ask_question_ok_valid _ _ _ _ _ _ H) as [Hne Hlen].
  pose proof (Forall2_length same_up_to_case _ _ Hs) as Hl.
  rewrite (ask_question_valid md5 e q2 st').
  - rewrite <- Hkey, Hc. reflexivity.
  - destruct (strip q2); [|discriminate]. destruct (strip q1); [congruence|discriminate].
  - rewrite <- Hl. exact Hlen.
Qed.

(** C5: a capital sigma makes two case variants miss each other's cache
    entry: ["ΑΣ".lower()] is ["ας"] (final sigma) while ["ασ".lower()]
    is ["ασ"], so the keys differ and the second question is a cache
    miss. *)
Lemma ask_cache_final_sigma_counterexample :
  case_ws_variant (txt "ΑΣ") (txt "ασ") /\
  get_cache_key hashlib_md5_hexdigest (strip (txt "ΑΣ")) <>
  get_cache_key hashlib_md5_hexdigest (strip (txt "ασ")) /\
  cache_misses (snd (ask_question hashlib_md5_hexdigest lexical_env (txt "ασ")
                       (snd (ask_question hashlib_md5_hexdigest lexical_env
                               (txt "ΑΣ") empty_state)))) = 2%nat.
Proof.
  split; [|split].
  - exists [], (txt "ΑΣ"), [], [], (txt "ασ"), [].
    split; [reflexivity|]. split; [reflexivity|].
    do 4 (split; [constructor|]).
    apply same_case_b_sound. vm_compute. reflexivity.
  - vm_compute. discriminate.
  - vm_compute. reflexivity.
Qed.

(** ** Relevance values produced by the two searches *)

Lemma py_min_le_r (a b : Q) : py_min a b <= b.
Proof.
  unfold py_min. destruct (Qle_bool a b) eqn:H.
  - apply Qle_bool_iff, H.
  - apply Qle_refl.
Qed.

Lemma py_min_ge (a b c : Q) : c <= a -> c <= b -> c <= py_min a b.
Proof. unfold py_min. destruct (Qle_bool a b); auto. Qed.

Lemma py_min_spec (a b : Q) : (a <= b /\ py_min a b = a) \/ (b < a /\ py_min a b = b).
Proof.
  unfold py_min. destruct (Qle_bool a b) eqn:H.
  - left. split; [apply Qle_bool_iff, H|reflexivity].
  - right. split; [|reflexivity]. apply Qnot_le_lt. intros Hle.
    apply Qle_bool_iff in Hle. congruence.
Qed.

Lemma chroma_loop_relevance data dists docs i res a :
  chroma_loop data dists docs i = Some res -> In a res ->
  exists d, relevance a = 1 - py_min d 1 /\ distance_origin dists d.
Proof.
  revert i res. induction docs as [|doc docs IH]; simpl; intros i res H Hin.
  - injection H as <-. destruct Hin.
  - destruct (find_rule doc data) as [r|]; [|eapply IH; eassumption].
    destruct (match dists with [] => Some 1 | d0 :: _ => nth_error d0 i end)
      as [d|] eqn:Hd; [|discriminate].
    destruct (chroma_loop data dists docs (S i)) as [rest|] eqn:Hl;
      [|discriminate].
    injection H as <-. destruct Hin as [<-|Hin]; [|eapply IH; eassumption].
    exists d. split; [reflexivity|]. unfold distance_origin.
    destruct dists as [|d0 rest']; [left; split; [reflexivity|congruence]|].
    right. exists d0, rest'. split; [reflexivity|].
    eapply nth_error_In, Hd.
Qed.

Lemma chroma_search_relevance_origin e q n a :
  In a (chroma_search e q n) ->
  exists qr d, chroma_query e q n = ChromaReturns qr /\
               relevance a = 1 - py_min d 1 /\ distance_origin (distances qr) d.
Proof.
  unfold chroma_search. destruct (negb (client e)); [intros []|].
  destruct (chroma_query e q n) as [|qr]; [intros []|].
  destruct (documents qr) as [|docs rest]; [intros []|].
  destruct (chroma_loop (PDD_DATA e) (distances qr) docs 0) as [res|] eqn:Hl;
    [|intros []].
  intros Hin. destruct (chroma_loop_relevance _ _ _ _ _ _ Hl Hin) as (d & Hr & Ho).
  exists qr, d. auto.
Qed.

Lemma semantic_relevance_bounds (d : Q) :
  0 <= 1 - py_min d 1 /\ (0 <= d -> 1 - py_min d 1 <= 1).
Proof.
  pose proof (py_min_le_r d 1). split; [lra|].
  intros Hd. assert (0 <= py_min d 1) by (apply py_min_ge; lra). lra.
Qed.

Lemma collect_in q_lower data a :
  In a (collect q_lower data) ->
  In (s_rule a) data /\ 0 < rule_relevance q_lower (s_rule a) /\
  relevance a = py_min (rule_relevance q_lower (s_rule a)) 1.
Proof.
  induction data as [|r data IH]; simpl; [intros []|].
  destruct (Qle_bool (rule_relevance q_lower r) 0) eqn:Hle.
  - intros Hin. destruct (IH Hin) as (? & ? & ?). auto.
  - intros [<-|Hin].
    + simpl. repeat split; auto. apply Qnot_le_lt. intros H.
      apply Qle_bool_iff in H. congruence.
    + destruct (IH Hin) as (? & ? & ?). auto.
Qed.

Lemma insert_desc_in x l a : In a (insert_desc x l) <-> x = a \/ In a l.
Proof.
  induction l as [|y l IH]; simpl.
  - tauto.
  - destruct (Qle_bool (relevance y) (relevance x)); simpl; [tauto|].
    rewrite IH. tauto.
Qed.

Lemma sort_desc_in l a : In a (sort_desc l) <-> In a l.
Proof.
  induction l as [|x l IH]; simpl; [tauto|]. rewrite insert_desc_in, IH.
  split; intros [H|H]; auto.
Qed.

Lemma in_firstn {A} (n : nat) (l : list A) (a : A) :
  In a (firstn n l) -> In a l.
Proof.
  intros H. rewrite <- (firstn_skipn n l). apply in_or_app. left. exact H.
Qed.

Lemma simple_search_in data q n a :
  In a (simple_search data q n) -> In a (collect (lower q) data).
Proof.
  unfold simple_search. intros H. apply in_firstn in H.
  apply sort_desc_in, H.
Qed.

Lemma simple_search_relevance_nonneg data q n a :
  In a (simple_search data q n) -> 0 <= relevance a.
Proof.
  intros H. apply simple_search_in, collect_in in H as (_ & Hpos & ->).
  apply py_min_ge; lra.
Qed.

Lemma search_pdd_relevance_nonneg e q n a :
  In a (search_pdd e q n) -> 0 <= relevance a.
Proof.
  unfold search_pdd. destruct (CHROMA_AVAILABLE e);
    [|apply simple_search_relevance_nonneg].
  destruct (chroma_search e q n) as [|x xs] eqn:Hc;
    [apply simple_search_relevance_nonneg|].
  rewrite <- Hc. intros H.
  destruct (chroma_search_relevance_origin _ _ _ _ H) as (qr & d & _ & -> & _).
  apply semantic_relevance_bounds.
Qed.

(** ** C8 *)

Lemma chroma_loop_hits data dists (pre docs : list str) res :
  chroma_loop data dists docs (length pre) = Some res ->
  exists js, StronglySorted lt js /\ Forall (fun j => length pre <= j)%nat js /\
    Forall2 (fun a j => exists doc d,
        nth_error (pre ++ docs) j = Some doc /\
        find_rule doc data = Some (s_rule a) /\
        distance_at dists j d /\ relevance a = 1 - py_min d 1) res js.
Proof.
  revert pre res. induction docs as [|doc docs IH]; intros pre res H.
  - cbn in H. injection H as <-. exists []. repeat constructor.
  - cbn [chroma_loop] in H.
    assert (Hlen : length (pre ++ [doc]) = S (length pre))
      by (rewrite length_app; cbn; lia).
    assert (Happ : (pre ++ [doc]) ++ docs = pre ++ doc :: docs)
      by (rewrite <- app_assoc; reflexivity).
    destruct (find_rule doc data) as [r|] eqn:Hf.
    + destruct (match dists with [] => Some 1 | d0 :: _ => nth_error d0 (length pre) end)
        as [d|] eqn:Hd; [|discriminate].
      destruct (chroma_loop data dists docs (S (length pre))) as [rest|] eqn:Hl;
        [|discriminate].
      injection H as <-. rewrite <- Hlen in Hl.
      destruct (IH _ _ Hl) as (js & Hs & Hge & Hall). rewrite Hlen in Hge.
      exists (length pre :: js). split; [|split].
      * constructor; [exact Hs|]. eapply List.Forall_impl; [|exact Hge].
        intros j Hj. cbn in Hj. lia.
      * constructor; [lia|]. eapply List.Forall_impl; [|exact Hge]. intros j Hj. cbn in Hj. lia.
      * constructor.
        -- exists doc, d. split; [|split; [exact Hf|split; [|reflexivity]]].
           ++ rewrite nth_error_app2 by lia. rewrite Nat.sub_diag. reflexivity.
           ++ unfold distance_at. destruct dists; [congruence|exact Hd].
        -- rewrite Happ in Hall. exact Hall.
    + rewrite <- Hlen in H. destruct (IH _ _ H) as (js & Hs & Hge & Hall).
      rewrite Hlen in Hge. exists js. split; [exact Hs|]. split.
      * eapply List.Forall_impl; [|exact Hge]. intros j Hj. cbn in Hj. lia.
      * rewrite Happ in Hall. exact Hall.
Qed.

(** C8 (amended): the semantic hits correspond, in order, to distinct
    documents of [documents[0]] (at increasing indices [j]); each hit holds
    the first rule whose content or title is contained in its document,
    and its relevance is [1 - min(d, 1.0)] with no further clamp, where
    [d] is the distance at the same index [j] ([distances[0][j]], or
    [1.0] when [distances] is falsy). This relevance is never negative,
    and it is at most 1 when [d] is non-negative. *)
Theorem chroma_search_relevance_formula (e : env) (q : str) (n : nat) :
  chroma_search e q n <> [] ->
  exists qr docs rest js,
    chroma_query e q n = ChromaReturns qr /\ documents qr = docs :: rest /\
    StronglySorted lt js /\
    Forall2 (fun a j => exists doc d,
        nth_error docs j = Some doc /\
        find_rule doc (PDD_DATA e) = Some (s_rule a) /\
        distance_at (distances qr) j d /\
        relevance a = 1 - py_min d 1 /\ 0 <= relevance a /\
        (0 <= d -> relevance a <= 1))
      (chroma_search e q n) js.
Proof.
  unfold chroma_search. destruct (negb (client e)); [congruence|].
  destruct (chroma_query e q n) as [|qr]; [congruence|].
  destruct (documents qr) as [|docs rest] eqn:Hdocs; [congruence|].
  destruct (chroma_loop (PDD_DATA e) (distances qr) docs 0) as [res|] eqn:Hl;
    [|congruence].
  intros _. destruct (chroma_loop_hits _ _ [] docs res Hl) as (js & Hs & _ & Hall).
  exists qr, docs, rest, js. split; [reflexivity|]. split; [exact Hdocs|].
  split; [exact Hs|]. eapply Forall2_impl; [exact Hall|].
  intros a j (doc & d & H1 & H2 & H3 & H4). exists doc, d.
  pose proof (semantic_relevance_bounds d). rewrite H4. tauto.
Qed.

Lemma chroma_search_relevance_formula_witness :
  chroma_search (env_with_chroma c8_qr) (txt "q") 3 <> [] /\
  chroma_search (env_with_chroma c8_qr) (txt "q") 3 =
    [mk_scored ex_rule2 (1 - py_min (1 # 5) 1);
     mk_scored ex_rule1 (1 - py_min (2 # 5) 1)] /\
  exists qr docs rest js,
    chroma_query (env_with_chroma c8_qr) (txt "q") 3 = ChromaReturns qr /\
    documents qr = docs :: rest /\
    StronglySorted lt js /\
    Forall2 (fun a j => exists doc d,
        nth_error docs j = Some doc /\
        find_rule doc (PDD_DATA (env_with_chroma c8_qr)) = Some (s_rule a) /\
        distance_at (distances qr) j d /\
        relevance a = 1 - py_min d 1 /\ 0 <= relevance a /\
        (0 <= d -> relevance a <= 1))
      (chroma_search (env_with_chroma c8_qr) (txt "q") 3) js.
Proof.
  assert (H : chroma_search (env_with_chroma c8_qr) (txt "q") 3 <> [])
    by (vm_compute; discriminate).
  split; [exact H|]. split; [vm_compute; reflexivity|].
  exact (chroma_search_relevance_formula _ _ _ H).
Defined.

(** C8 fails as stated: with a negative distance [-0.5] the semantic hit
    gets relevance [1.5], outside [0, 1]. *)
Lemma chroma_relevance_negative_distance_counterexample :
  ~ (forall a, In a (chroma_search (env_with_chroma
        (mk_query_result [[txt "Roundabout. yield on the circle"]]
                         [[- (1 # 2)]])) (txt "q") 3) ->
        0 <= relevance a <= 1).
Proof.
  intros H.
  destruct (H (mk_scored ex_rule1 (1 - py_min (- (1 # 2)) 1)))
    as [_ Hle]; [vm_compute; left; reflexivity|].
  vm_compute in Hle. apply Hle. reflexivity.
Qed.

(** ** C7 *)

Lemma total_relevance_fold (l : list scored) (acc : Q) :
  fold_left (fun acc x => acc + relevance x) l acc == acc + sum_relevance l.
Proof.
  revert acc. induction l as [|x l IH]; intros acc; simpl; [lra|].
  rewrite IH. lra.
Qed.

Lemma total_relevance_sum (l : list scored) :
  total_relevance l == sum_relevance l.
Proof. unfold total_relevance. rewrite total_relevance_fold. lra. Qed.

Lemma sum_relevance_nonneg (l : list scored) :
  (forall a, In a l -> 0 <= relevance a) -> 0 <= sum_relevance l.
Proof.
  induction l as [|x l IH]; simpl; intros H; [lra|].
  pose proof (H x (or_introl eq_refl)).
  assert (0 <= sum_relevance l) by (apply IH; auto). lra.
Qed.

Lemma py_min_clamp01 (x : Q) : 0 <= x -> py_min x 1 == clamp01 x.
Proof.
  intros Hx. unfold clamp01.
  destruct (py_min_spec x 1) as [[Hle ->]|[Hlt ->]];
    destruct (Qle_bool x 0) eqn:H0; try apply Qle_bool_iff in H0;
    destruct (Qle_bool 1 x) eqn:H1; try apply Qle_bool_iff in H1;
    try lra.
  - assert (~ 1 <= x) as Hn by (intros Hn; apply Qle_bool_iff in Hn; congruence).
    lra.
Qed.

Lemma py_min_compat (a a' b : Q) : a == a' -> py_min a b == py_min a' b.
Proof.
  intros H.
  destruct (py_min_spec a b) as [[? ->]|[? ->]];
    destruct (py_min_spec a' b) as [[? ->]|[? ->]]; lra.
Qed.

Lemma compose_confidence oc q (m : list scored) :
  m <> [] ->
  confidence (compose oc q m) =
  py_min (total_relevance m / inject_Z (Z.of_nat (length m))) 1.
Proof. destruct m; [congruence|reflexivity]. Qed.

Lemma average_nonneg (m : list scored) :
  m <> [] -> (forall a, In a m -> 0 <= relevance a) ->
  0 <= sum_relevance m / inject_Z (Z.of_nat (length m)).
Proof.
  intros Hne Hpos. apply Qle_shift_div_l.
  - destruct m; [congruence|]. simpl length. unfold Qlt. simpl. lia.
  - pose proof (sum_relevance_nonneg m Hpos). lra.
Qed.

(** C7: for the (non-empty) matches of [search_pdd], the confidence of the
    composed answer is the average relevance clamped to [0, 1], and it is
    the same whatever the OpenAI step does (absent, failing, or
    answering). *)
Theorem compose_confidence_average (e : env) (q : str) (n : nat)
  (oc oc' : option (str -> gen_outcome)) :
  search_pdd e q n <> [] ->
  confidence (compose oc q (search_pdd e q n)) =
    confidence (compose oc' q (search_pdd e q n)) /\
  confidence (compose oc q (search_pdd e q n)) ==
    clamp01 (sum_relevance (search_pdd e q n) /
             inject_Z (Z.of_nat (length (search_pdd e q n)))).
Proof.
  intros Hne. rewrite !compose_confidence by exact Hne.
  split; [reflexivity|].
  pose proof (average_nonneg _ Hne (search_pdd_relevance_nonneg e q n)) as Hav.
  rewrite <- py_min_clamp01 by exact Hav.
  apply py_min_compat, Qdiv_comp; [apply total_relevance_sum|reflexivity].
Qed.

(** ** C10 *)






(** ** C2 *)

Lemma sorted_desc_cons a l :
  sorted_desc (a :: l) = true <-> hd_le a l /\ sorted_desc l = true.
Proof.
  destruct l as [|b l]; simpl; [tauto|].
  rewrite andb_true_iff, Qle_bool_iff. tauto.
Qed.

Lemma insert_desc_sorted x l :
  sorted_desc l = true -> sorted_desc (insert_desc x l) = true /\
  forall z, relevance x <= relevance z -> hd_le z l -> hd_le z (insert_desc x l).
Proof.
  induction l as [|y l IH]; simpl; intros Hs.
  - split; [reflexivity|]. intros z Hz _. exact Hz.
  - apply sorted_desc_cons in Hs as [Hhd Hs].
    destruct (Qle_bool (relevance y) (relevance x)) eqn:Hyx.
    + apply Qle_bool_iff in Hyx. split.
      * apply sorted_desc_cons. split; [exact Hyx|].
        apply sorted_desc_cons. auto.
      * intros z Hz _. exact Hz.
    + assert (Hxy : relevance x < relevance y).
      { apply Qnot_le_lt. intros H. apply Qle_bool_iff in H. congruence. }
      destruct (IH Hs) as [Hs' Hhd']. split.
      * apply sorted_desc_cons. split; [|exact Hs'].
        apply Hhd'; [apply Qlt_le_weak, Hxy|exact Hhd].
      * intros z _ Hz. exact Hz.
Qed.

Lemma sort_desc_sorted l : sorted_desc (sort_desc l) = true.
Proof.
  induction l as [|x l IH]; [reflexivity|]. apply insert_desc_sorted, IH.
Qed.

Lemma firstn_sorted n l : sorted_desc l = true -> sorted_desc (firstn n l) = true.
Proof.
  revert n. induction l as [|a l IH]; intros [|n] Hs; try reflexivity.
  apply sorted_desc_cons in Hs as [Hhd Hs]. simpl.
  apply sorted_desc_cons. split; [|apply IH, Hs].
  destruct l, n; simpl; auto.
Qed.

Lemma filter_insert_desc (f : scored -> bool) k x l :
  f = (fun y => Qeq_bool (relevance y) k) ->
  List.filter f (insert_desc x l) = List.filter f (x :: l).
Proof.
  intros ->. induction l as [|y l IH]; simpl; [reflexivity|].
  destruct (Qle_bool (relevance y) (relevance x)) eqn:Hyx; [reflexivity|].
  assert (Hxy : relevance x < relevance y).
  { apply Qnot_le_lt. intros H. apply Qle_bool_iff in H. congruence. }
  simpl in IH. simpl. rewrite IH.
  destruct (Qeq_bool (relevance y) k) eqn:Hy;
    destruct (Qeq_bool (relevance x) k) eqn:Hx; try reflexivity.
  apply Qeq_bool_iff in Hy, Hx. lra.
Qed.

Lemma filter_sort_desc k l :
  List.filter (fun y => Qeq_bool (relevance y) k) (sort_desc l) =
  List.filter (fun y => Qeq_bool (relevance y) k) l.
Proof.
  induction l as [|x l IH]; [reflexivity|]. simpl sort_desc.
  rewrite (filter_insert_desc _ k) by reflexivity. simpl. rewrite IH. reflexivity.
Qed.

Lemma sublist_firstn {A} n (l : list A) : firstn n l `sublist_of` l.
Proof.
  revert n. induction l as [|a l IH]; intros [|n]; simpl;
    auto using sublist_nil_l, sublist_skip.
Qed.

Lemma sublist_filter_bool {A} (f : A -> bool) l1 l2 :
  l1 `sublist_of` l2 -> List.filter f l1 `sublist_of` List.filter f l2.
Proof.
  induction 1 as [|x l1 l2 _ IH|x l1 l2 _ IH]; simpl; [constructor| |];
    destruct (f x); auto using sublist_skip, sublist_cons.
Qed.

Lemma sublist_map_f {A B} (f : A -> B) l1 l2 :
  l1 `sublist_of` l2 -> map f l1 `sublist_of` map f l2.
Proof.
  induction 1; simpl; auto using sublist_skip, sublist_cons, sublist_nil_l.
Qed.

Lemma sublist_filter_self {A} (f : A -> bool) l : List.filter f l `sublist_of` l.
Proof.
  induction l as [|a l IH]; simpl; [constructor|].
  destruct (f a); auto using sublist_skip, sublist_cons.
Qed.

Lemma collect_sublist q_lower data : map s_rule (collect q_lower data) `sublist_of` data.
Proof.
  induction data as [|r data IH]; simpl; [constructor|].
  destruct (Qle_bool _ 0); simpl; auto using sublist_skip, sublist_cons.
Qed.

Lemma simple_search_ranked data q n : ranked data n (simple_search data q n).
Proof.
  unfold ranked, simple_search. split; [|split].
  - rewrite length_firstn. lia.
  - apply firstn_sorted, sort_desc_sorted.
  - intros k. etransitivity.
    { apply sublist_map_f, sublist_filter_bool, sublist_firstn. }
    rewrite filter_sort_desc. etransitivity; [|apply collect_sublist].
    apply sublist_map_f, sublist_filter_self.
Qed.

Lemma chroma_loop_length data dists docs i res :
  chroma_loop data dists docs i = Some res -> (length res <= length docs)%nat.
Proof.
  revert i res. induction docs as [|doc docs IH]; simpl; intros i res H.
  - injection H as <-. reflexivity.
  - destruct (find_rule doc data); [|apply IH in H; lia].
    destruct (match dists with [] => Some 1 | d0 :: _ => nth_error d0 i end);
      [|discriminate].
    destruct (chroma_loop data dists docs (S i)) as [rest|] eqn:Hl;
      [|discriminate].
    injection H as <-. apply IH in Hl. simpl. lia.
Qed.

Lemma search_pdd_cases e q n :
  search_pdd e q n = simple_search (PDD_DATA e) q n \/
  (search_pdd e q n = chroma_search e q n /\ chroma_search e q n <> []).
Proof.
  unfold search_pdd. destruct (CHROMA_AVAILABLE e); [|left; reflexivity].
  destruct (chroma_search e q n) as [|x xs]; [left; reflexivity|].
  right. split; [reflexivity|discriminate].
Qed.

(** C2 (amended): the lexical fallback returns at most [n] hits sorted by
    relevance (descending) with ties in corpus order; a non-empty semantic
    result is returned as [chroma_loop] builds it, i.e. in the order of the
    documents the collection returned, unsorted, with at most one hit per
    returned document. *)
Theorem search_pdd_order (e : env) (q : str) (n : nat) :
  (search_pdd e q n = simple_search (PDD_DATA e) q n /\
   ranked (PDD_DATA e) n (search_pdd e q n))
  \/
  (search_pdd e q n = chroma_search e q n /\ search_pdd e q n <> [] /\
   exists qr docs rest,
     chroma_query e q n = ChromaReturns qr /\ documents qr = docs :: rest /\
     chroma_loop (PDD_DATA e) (distances qr) docs 0 = Some (search_pdd e q n) /\
     (length (search_pdd e q n) <= length docs)%nat).
Proof.
  destruct (search_pdd_cases e q n) as [H|(H & Hne)].
  - left. split; [exact H|]. rewrite H. apply simple_search_ranked.
  - right. rewrite H. split; [reflexivity|]. split; [exact Hne|].
    revert Hne. unfold chroma_search.
    destruct (negb (client e)); [congruence|].
    destruct (chroma_query e q n) as [|qr]; [congruence|].
    destruct (documents qr) as [|docs rest] eqn:Hd; [congruence|].
    destruct (chroma_loop (PDD_DATA e) (distances qr) docs 0) as [res|] eqn:Hl;
      [|congruence].
    intros _. exists qr, docs, rest. repeat split; auto.
    eapply chroma_loop_length, Hl.
Qed.

(** C2 fails as stated for the semantic branch: two returned documents at
    distances 1.0 and 1.5 (both relevance 0) come back in the collection's
    order, rule 10.1 before rule 13.7, against the corpus order. *)
Lemma search_pdd_semantic_tie_counterexample :
  ~ ranked ex_corpus 3
      (search_pdd (env_with_chroma
         (mk_query_result [[txt "Speed. limit in town";
                            txt "Roundabout. yield on the circle"]] [[1; 3 # 2]]))
         (txt "Who yields?") 3).
Proof.
  intros (_ & _ & Hties). specialize (Hties 0).
  vm_compute in Hties.
  inversion Hties as [|? ? ? H|? ? ? H]; subst.
  inversion H as [|? ? ? H'|? ? ? H']; subst; inversion H'.
Qed.

(** ** C1 *)

Lemma inject_Z_of_nat_succ (m : nat) :
  inject_Z (Z.of_nat (S m)) == inject_Z (Z.of_nat m) + 1.
Proof. rewrite Nat2Z.inj_succ, <- Z.add_1_r, inject_Z_plus. reflexivity. Qed.

Lemma inject_Z_of_nat_nonneg (m : nat) : 0 <= inject_Z (Z.of_nat m).
Proof. unfold Qle. simpl. lia. Qed.

Lemma keyword_score_fold q_lower kws acc :
  fold_left (fun acc keyword => if is_substring (lower keyword) q_lower
                                then acc + (3 # 10) else acc) kws acc ==
  acc + (3 # 10) * inject_Z (Z.of_nat
          (length (List.filter (fun k => is_substring (lower k) q_lower) kws))).
Proof.
  revert acc. induction kws as [|k kws IH]; intros acc.
  - change (acc == acc + (3 # 10) * 0). lra.
  - cbn [fold_left List.filter]. rewrite IH.
    destruct (is_substring (lower k) q_lower); cbn [length]; [|reflexivity].
    rewrite inject_Z_of_nat_succ. lra.
Qed.

Lemma rule_relevance_closed question d :
  rule_relevance (lower question) d == raw_spec_total question d.
Proof.
  unfold rule_relevance, raw_spec_total, keyword_score. cbv zeta.
  destruct (existsb _ (split (lower (title d))));
    destruct (existsb _ (split (lower (content d))));
    rewrite keyword_score_fold; lra.
Qed.

Lemma raw_spec_total_nonneg question d : 0 <= raw_spec_total question d.
Proof.
  unfold raw_spec_total.
  pose proof (inject_Z_of_nat_nonneg
    (length (List.filter (fun k => is_substring (lower k) (lower question))
                         (keywords d)))).
  destruct (existsb _ (split (lower (title d))));
    destruct (existsb _ (split (lower (content d)))); lra.
Qed.

Lemma code_score_spec question d :
  py_min (rule_relevance (lower question) d) 1 == spec_score question d.
Proof.
  rewrite (py_min_compat _ _ 1 (rule_relevance_closed question d)).
  reflexivity.
Qed.

Lemma code_score_zero question d :
  Qle_bool (rule_relevance (lower question) d) 0 =
  Qeq_bool (spec_score question d) 0.
Proof.
  apply Bool.eq_iff_eq_true. rewrite Qle_bool_iff, Qeq_bool_iff.
  pose proof (rule_relevance_closed question d) as Hc.
  pose proof (code_score_spec question d) as Hs.
  pose proof (raw_spec_total_nonneg question d).
  destruct (py_min_spec (rule_relevance (lower question) d) 1)
    as [[? Heq]|[? Heq]]; rewrite Heq in Hs; split; intros; lra.
Qed.

(** C1: [simple_search] scores a rule exactly as the specification says
    ([0.3] per contained keyword, flat [0.5] for a title token, flat [0.2]
    for a content token, capped at 1); the candidates it ranks are exactly
    the rules of non-zero score, in corpus order, each with its score; so
    no rule of score 0 ever appears in its output. *)
Theorem simple_search_scores (data : list rule) (question : str) (n : nat) :
  (forall d, py_min (rule_relevance (lower question) d) 1 == spec_score question d)
  /\ Forall2 (fun x d => s_rule x = d /\ relevance x == spec_score question d)
       (collect (lower question) data)
       (List.filter (fun d => negb (Qeq_bool (spec_score question d) 0)) data)
  /\ (forall x, In x (simple_search data question n) ->
        In (s_rule x) data /\ relevance x == spec_score question (s_rule x) /\
        ~ spec_score question (s_rule x) == 0).
Proof.
  split; [apply code_score_spec|]. split.
  - induction data as [|d data IH]; simpl; [constructor|].
    rewrite code_score_zero.
    destruct (Qeq_bool (spec_score question d) 0); simpl; [exact IH|].
    constructor; [|exact IH]. split; [reflexivity|apply code_score_spec].
  - intros x Hin. apply simple_search_in, collect_in in Hin as (Hd & Hpos & Hr).
    rewrite Hr, code_score_spec. split; [exact Hd|]. split; [reflexivity|].
    rewrite <- code_score_spec. intros H0.
    destruct (py_min_spec (rule_relevance (lower question) (s_rule x)) 1)
      as [[? Heq]|[? Heq]]; rewrite Heq in H0; lra.
Qed.

(** ** Witnesses at concrete inputs *)

Lemma search_pdd_fallback_total_witness :
  search_pdd (mk_env ex_corpus true true (fun _ _ => ChromaRaises) None)
             (txt "Who yields on the circle?") 3 =
  simple_search ex_corpus (txt "Who yields on the circle?") 3.
Proof.
  apply (search_pdd_fallback_total
           (mk_env ex_corpus true true (fun _ _ => ChromaRaises) None)
           (txt "Who yields on the circle?") 3).
  apply su_query_raises. reflexivity.
Defined.

Lemma ask_rejects_invalid_input_witness :
  invalid_question (txt "   ") = true /\
  snd (ask_question hashlib_md5_hexdigest lexical_env (txt "   ") empty_state) = empty_state.
Proof.
  destruct (ask_rejects_invalid_input hashlib_md5_hexdigest lexical_env (txt "   ") empty_state)
    as [_ Hinv].
  assert (H : invalid_question (txt "   ") = true) by reflexivity.
  split; [exact H|]. apply (proj1 (Hinv H)).
Defined.

Lemma ask_cache_normalized_idempotent_witness :
  case_ws_variant c5_q1 c5_q2 /\
  ask_question hashlib_md5_hexdigest lexical_env c5_q2 c5_state =
    (Ok c5_answer, mk_state (answer_cache c5_state) 1 1).
Proof.
  assert (Hv : case_ws_variant c5_q1 c5_q2).
  { exists [], c5_q1, [], (txt "  "), (txt "WHO YIELDS ON THE CIRCLE?"), (txt "   ").
    split; [reflexivity|]. split; [reflexivity|].
    do 4 (split; [apply all_space_b; vm_compute; reflexivity|]).
    apply same_case_b_sound. vm_compute. reflexivity. }
  split; [exact Hv|].
  apply (proj2 (ask_cache_normalized_idempotent hashlib_md5_hexdigest lexical_env
                  c5_q1 c5_q2 empty_state c5_state c5_answer Hv
                  (or_intror (conj eq_refl eq_refl)))).
  vm_compute. reflexivity.
Defined.


Lemma compose_confidence_average_witness :
  length (search_pdd lexical_env c7_q 3) = 2%nat /\
  answer (compose c7_generator c7_q (search_pdd lexical_env c7_q 3)) = txt "ok" /\
  search_pdd lexical_env c7_q 3 <> [] /\
  confidence (compose c7_generator c7_q (search_pdd lexical_env c7_q 3)) =
    confidence (compose None c7_q (search_pdd lexical_env c7_q 3)) /\
  confidence (compose c7_generator c7_q (search_pdd lexical_env c7_q 3)) ==
    clamp01 (sum_relevance (search_pdd lexical_env c7_q 3) /
             inject_Z (Z.of_nat (length (search_pdd lexical_env c7_q 3)))).
Proof.
  assert (H : search_pdd lexical_env c7_q 3 <> []) by (vm_compute; discriminate).
  split; [vm_compute; reflexivity|]. split; [vm_compute; reflexivity|].
  split; [exact H|].
  exact (compose_confidence_average lexical_env c7_q 3 c7_generator None H).
Defined.


(* ================================================================== *)
(** * Further properties of the code *)

(** ** One request, and sequences of requests *)

Lemma ask_question_step md5 e raw st :
  (invalid_question raw = true /\
   exists d, ask_question md5 e raw st = (HTTPException 400 d, st)) \/
  (invalid_question raw = false /\
   ((exists a, answer_cache st !! get_cache_key md5 (strip raw) = Some a /\
      ask_question md5 e raw st =
        (Ok a, mk_state (answer_cache st) (S (cache_hits st)) (cache_misses st))) \/
    (answer_cache st !! get_cache_key md5 (strip raw) = None /\
      ask_question md5 e raw st =
        (Ok (compose (openai_client e) (strip raw) (search_pdd e (strip raw) 3)),
         mk_state (<[get_cache_key md5 (strip raw) :=
                      compose (openai_client e) (strip raw)
                              (search_pdd e (strip raw) 3)]> (answer_cache st))
                  (cache_hits st) (S (cache_misses st)))))).
Proof.
  destruct (invalid_question raw) eqn:Hi.
  - left. split; [reflexivity|]. apply ask_question_invalid, Hi.
  - right. split; [reflexivity|].
    assert (Hne : strip raw <> []).
    { unfold invalid_question in Hi. destruct (strip raw); discriminate. }
    assert (Hlen : (length (strip raw) <= 500)%nat).
    { unfold invalid_question in Hi. destruct (strip raw); [discriminate|].
      apply Nat.ltb_ge, Hi. }
    rewrite (ask_question_valid md5 e raw st Hne Hlen).
    destruct (answer_cache st !! _) as [a|] eqn:Hc.
    + left. exists a. split; reflexivity.
    + right. split; reflexivity.
Qed.

(** Shorthand for the case analysis of one step of [run_asks]. *)
Ltac run_asks_step md5 e q st Ha :=
  destruct (ask_question_step md5 e q st)
    as [[Hi [d Hd]]|[Hi [[a0 [Hc Hd]]|[Hc Hd]]]];
  rewrite Hd in Ha; injection Ha as <- <-.

Lemma run_asks_cons md5 e q qs st :
  run_asks md5 e (q :: qs) st =
  (fst (ask_question md5 e q st) ::
     fst (run_asks md5 e qs (snd (ask_question md5 e q st))),
   snd (run_asks md5 e qs (snd (ask_question md5 e q st)))).
Proof.
  simpl. destruct (ask_question md5 e q st) as [r st1]. cbn [fst snd].
  destruct (run_asks md5 e qs st1). reflexivity.
Qed.

Lemma ask_question_keeps_entry md5 e raw st k a :
  answer_cache st !! k = Some a ->
  answer_cache (snd (ask_question md5 e raw st)) !! k = Some a.
Proof.
  intros Hk. destruct (ask_question md5 e raw st) as [r st'] eqn:Ha. simpl.
  run_asks_step md5 e raw st Ha; cbn [answer_cache]; try exact Hk.
  destruct (decide (get_cache_key md5 (strip raw) = k)) as [<-|Hne].
  - congruence.
  - rewrite lookup_insert_ne by exact Hne. exact Hk.
Qed.

Lemma run_asks_size_misses md5 e qs st :
  (size (answer_cache (snd (run_asks md5 e qs st))) + cache_misses st =
   size (answer_cache st) + cache_misses (snd (run_asks md5 e qs st)))%nat.
Proof.
  revert st. induction qs as [|q qs IH]; intros st; [reflexivity|].
  rewrite run_asks_cons. cbn [snd].
  pose proof (IH (snd (ask_question md5 e q st))) as IH'.
  destruct (ask_question md5 e q st) as [r st1] eqn:Ha. cbn [snd] in *.
  run_asks_step md5 e q st Ha; cbn [answer_cache cache_misses] in IH'; try lia.
  rewrite map_size_insert_None in IH' by exact Hc. lia.
Qed.

Lemma compose_good oc q e n :
  good_answer (compose oc q (search_pdd e q n)).
Proof.
  pose proof (search_pdd_relevance_nonneg e q n) as Hpos.
  destruct (search_pdd e q n) as [|x xs] eqn:Hs.
  - unfold good_answer. cbn [compose not_found_result answer confidence].
    split; [unfold NOT_FOUND_ANSWER; simpl; discriminate|split; lra].
  - assert (Hne : x :: xs <> []) by discriminate.
    unfold good_answer. rewrite (compose_confidence oc q (x :: xs) Hne).
    split; [|split].
    + cbn [compose answer].
      destruct (generate oc _) as [[|c s]|];
        try (unfold fallback_answer; simpl; discriminate); discriminate.
    + apply py_min_ge; [|lra].
      rewrite (Qdiv_comp _ _ (total_relevance_sum (x :: xs)) _ _ (Qeq_refl _)).
      apply average_nonneg; [exact Hne|]. intros a Ha. apply Hpos, Ha.
    + apply py_min_le_r.
Qed.

Lemma run_asks_good md5 e qs st :
  map_Forall (fun _ => good_answer) (answer_cache st) ->
  Forall good_response (fst (run_asks md5 e qs st)) /\
  map_Forall (fun _ => good_answer) (answer_cache (snd (run_asks md5 e qs st))).
Proof.
  revert st. induction qs as [|q qs IH]; intros st Hst; [split; [constructor|exact Hst]|].
  rewrite run_asks_cons. cbn [fst snd].
  destruct (ask_question md5 e q st) as [r st1] eqn:Ha. cbn [fst snd].
  run_asks_step md5 e q st Ha.
  - destruct (IH st Hst) as [H1 H2]. split; [constructor; [exact I|exact H1]|exact H2].
  - destruct (IH (mk_state (answer_cache st) (S (cache_hits st)) (cache_misses st))
      Hst) as [H1 H2]. split; [|exact H2].
    constructor; [|exact H1]. exact (map_Forall_lookup_1 _ _ _ _ Hst Hc).
  - assert (Hst1 : map_Forall (fun _ => good_answer)
             (<[get_cache_key md5 (strip q) :=
                 compose (openai_client e) (strip q) (search_pdd e (strip q) 3)]>
                (answer_cache st))).
    { apply map_Forall_insert_2; [apply compose_good|exact Hst]. }
    destruct (IH (mk_state _ (cache_hits st) (S (cache_misses st))) Hst1)
      as [H1 H2]. split; [|exact H2].
    constructor; [apply compose_good|exact H1].
Qed.


Lemma compose_None_question q1 q2 m :
  compose None q1 m = compose None q2 m.
Proof. destruct m; cbn [compose generate]; reflexivity. Qed.

(** X1: no request ever overwrites or removes a cache entry: an answer
    cached under a key is still cached, unchanged, after any sequence of
    requests. *)
Theorem run_asks_keeps_cache_entries md5 (e : env) (qs : list str) (st : state)
  (k : string) (a : Answer) :
  answer_cache st !! k = Some a ->
  answer_cache (snd (run_asks md5 e qs st)) !! k = Some a.
Proof.
  revert st. induction qs as [|q qs IH]; intros st Hk; [exact Hk|].
  rewrite run_asks_cons. cbn [snd]. apply IH, ask_question_keeps_entry, Hk.
Qed.

(** X3: the cache grows by exactly one entry per cache miss; in particular,
    from the initial state, [cache_size] of [/metrics] always equals
    [cache_misses]. *)
Theorem run_asks_cache_size_misses md5 (e : env) (qs : list str) (st : state) :
  (cache_size (get_metrics (snd (run_asks md5 e qs st))) +
   m_cache_misses (get_metrics st) =
   cache_size (get_metrics st) +
   m_cache_misses (get_metrics (snd (run_asks md5 e qs st))))%nat /\
  cache_size (get_metrics (snd (run_asks md5 e qs empty_state))) =
  m_cache_misses (get_metrics (snd (run_asks md5 e qs empty_state))).
Proof.
  unfold get_metrics. cbn [cache_size m_cache_misses].
  split; [apply run_asks_size_misses|].
  pose proof (run_asks_size_misses md5 e qs empty_state) as H.
  unfold empty_state in *. cbn [answer_cache cache_misses] in H.
  rewrite map_size_empty in H. lia.
Qed.

(** X4: starting from the empty cache, every answer [ask_question] returns
    (fresh or cached) has a non-empty [answer] text and a confidence in
    [0, 1], whatever texts the generator returns and whatever numeric
    distances the vector search returns (distances are rationals here: a
    NaN distance, which Python would carry into the confidence, is outside
    the model). *)
Theorem run_asks_answers_good md5 (e : env) (qs : list str) :
  Forall good_response (fst (run_asks md5 e qs empty_state)).
Proof.
  apply run_asks_good. unfold empty_state. apply map_Forall_empty.
Qed.

(** X5: a question whose key is already cached is answered without
    consulting the search backends or the generator: the outcome does not
    depend on the environment. *)
Theorem ask_hit_env_independent md5 (e1 e2 : env) (raw : str) (st : state) :
  answer_cache st !! get_cache_key md5 (strip raw) <> None ->
  ask_question md5 e1 raw st = ask_question md5 e2 raw st.
Proof.
  intros H. revert H. unfold ask_question.
  destruct (strip raw) as [|c q]; [reflexivity|].
  destruct (Nat.ltb 500 (length (c :: q))); [reflexivity|].
  destruct (answer_cache st !! _); [reflexivity|congruence].
Qed.

(** X6: with only the lexical search and no OpenAI client, questions that
    differ only by case and surrounding whitespace, and hold no capital
    sigma, get the same outcome from any state, cached or not: serving one
    from the cache entry of the other returns exactly what a fresh
    computation would. *)
Theorem ask_variant_same_lexical md5 (e : env) (q1 q2 : str) (st : state) :
  CHROMA_AVAILABLE e = false -> openai_client e = None ->
  case_ws_variant q1 q2 ->
  no_capital_sigma q1 = true -> no_capital_sigma q2 = true ->
  ask_question md5 e q1 st = ask_question md5 e q2 st.
Proof.
  intros Hch Hoc Hv Hn1 Hn2. pose proof (variant_strip q1 q2 Hv) as Hs.
  pose proof (lower_case _ _ Hs (no_capital_sigma_strip _ Hn1)
                (no_capital_sigma_strip _ Hn2)) as Hlow.
  pose proof (Forall2_length same_up_to_case _ _ Hs) as Hl.
  assert (Hkey : get_cache_key md5 (strip q1) = get_cache_key md5 (strip q2)).
  { unfold get_cache_key. rewrite Hlow. reflexivity. }
  assert (Hcomp : compose (openai_client e) (strip q1) (search_pdd e (strip q1) 3) =
                  compose (openai_client e) (strip q2) (search_pdd e (strip q2) 3)).
  { unfold search_pdd, simple_search. rewrite Hch, Hoc, Hlow.
    apply compose_None_question. }
  unfold ask_question.
  destruct (strip q1) as [|c1 r1] eqn:E1, (strip q2) as [|c2 r2] eqn:E2;
    try (inversion Hs; fail); [reflexivity|].
  rewrite Hl, Hkey, Hcomp. reflexivity.
Qed.


(** ** [/metrics] and [round(.., 2)] *)

Lemma round_half_even_close (y : Q) :
  - (1 # 2) <= inject_Z (round_half_even y) - y /\
  inject_Z (round_half_even y) - y <= 1 # 2.
Proof.
  unfold round_half_even.
  pose proof (Qfloor_le y) as Hf. pose proof (Qlt_floor y) as Hf1.
  rewrite inject_Z_plus in Hf1.
  destruct (Qeq_bool (y - inject_Z (Qfloor y)) (1 # 2)) eqn:Heq.
  - apply Qeq_bool_iff in Heq.
    change (inject_Z 1) with 1 in Hf1.
    destruct (Z.even (Qfloor y)); [|rewrite inject_Z_plus; change (inject_Z 1) with 1];
      split; lra.
  - destruct (Qle_bool (y - inject_Z (Qfloor y)) (1 # 2)) eqn:Hle.
    + apply Qle_bool_iff in Hle. split; lra.
    + assert (Hgt : 1 # 2 < y - inject_Z (Qfloor y)).
      { apply Qnot_le_lt. intros H. apply Qle_bool_iff in H. congruence. }
      rewrite inject_Z_plus. change (inject_Z 1) with 1 in *. split; lra.
Qed.

Lemma round_half_even_bounds (y : Q) (M : Z) :
  0 <= y -> y <= inject_Z M -> (0 <= round_half_even y <= M)%Z.
Proof.
  intros H0 HM. destruct (round_half_even_close y) as [Hl Hu].
  split.
  - destruct (Z_lt_le_dec (round_half_even y) 0) as [Hn|]; [|assumption].
    assert (Hq : inject_Z (round_half_even y) <= inject_Z (-1))
      by (rewrite <- Zle_Qle; lia).
    change (inject_Z (-1)) with (-1) in Hq. lra.
  - destruct (Z_lt_le_dec M (round_half_even y)) as [Hn|]; [|assumption].
    assert (Hq : inject_Z (M + 1) <= inject_Z (round_half_even y))
      by (rewrite <- Zle_Qle; lia).
    rewrite inject_Z_plus in Hq. change (inject_Z 1) with 1 in Hq. lra.
Qed.

Lemma round_half_even_comp (x y : Q) :
  x == y -> round_half_even x = round_half_even y.
Proof.
  intros H. unfold round_half_even.
  assert (HF : Qfloor x = Qfloor y) by (apply Qfloor_comp; exact H).
  rewrite HF.
  replace (Qeq_bool (x - inject_Z (Qfloor y)) (1 # 2))
    with (Qeq_bool (y - inject_Z (Qfloor y)) (1 # 2)).
  2:{ apply Bool.eq_iff_eq_true. rewrite !Qeq_bool_iff. split; intros; lra. }
  replace (Qle_bool (x - inject_Z (Qfloor y)) (1 # 2))
    with (Qle_bool (y - inject_Z (Qfloor y)) (1 # 2)).
  2:{ apply Bool.eq_iff_eq_true. rewrite !Qle_bool_iff. split; intros; lra. }
  reflexivity.
Qed.

Lemma round_half_even_nonneg (y : Q) : 0 <= y -> (0 <= round_half_even y)%Z.
Proof.
  intros H. destruct (round_half_even_close y) as [Hl _].
  destruct (Z_lt_le_dec (round_half_even y) 0) as [Hn|]; [|assumption].
  assert (Hq : inject_Z (round_half_even y) <= inject_Z (-1))
    by (rewrite <- Zle_Qle; lia).
  change (inject_Z (-1)) with (-1) in Hq. lra.
Qed.

Lemma inject_Z_pos (k : Z) : (0 < k)%Z -> 0 < inject_Z k.
Proof. intros H. change 0 with (inject_Z 0). rewrite <- Zlt_Qlt. exact H. Qed.

Lemma pow2_pos (k : Z) : (0 <= k)%Z -> (0 < 2 ^ k)%Z.
Proof. intros H. apply Z.pow_pos_nonneg; lia. Qed.

Lemma le_div_mult (a b c : Q) : 0 < c -> a <= b / c -> a * c <= b.
Proof.
  intros Hc H. apply (Qmult_le_compat_r _ _ c) in H; [|lra].
  assert (E : b / c * c == b) by (field; lra). lra.
Qed.

Lemma scale_nonneg (x : Q) (e : Z) : 0 <= x -> 0 <= scale x e.
Proof.
  intros Hx. unfold scale. destruct (e <? 0)%Z eqn:He.
  - apply Qmult_le_0_compat; [exact Hx|].
    apply Qlt_le_weak, inject_Z_pos, pow2_pos. apply Z.ltb_lt in He. lia.
  - apply Qle_shift_div_l; [apply inject_Z_pos, pow2_pos; apply Z.ltb_ge in He; lia|].
    rewrite Qmult_0_l. exact Hx.
Qed.

(** Outside the subnormal range the scaled value has 53 bits. *)
Lemma double_exponent_normal (x : Q) :
  0 < x -> (0 < double_exponent x)%Z -> inject_Z (2 ^ 52) <= scale x (double_exponent x).
Proof.
  intros Hx. destruct x as [n d].
  assert (Hn : (0 < n)%Z).
  { unfold Qlt in Hx. cbn [Qnum Qden] in Hx. lia. }
  unfold double_exponent. cbn [Qnum Qden].
  set (e0 := (Z.log2 n - Z.log2 (Z.pos d) - 53)%Z).
  destruct (Qle_bool (inject_Z (2 ^ 53)) (scale (n # d) e0)) eqn:C; intros He.
  - apply Qle_bool_iff in C.
    assert (He0 : (0 <= e0)%Z) by lia.
    rewrite Z.max_l by lia.
    unfold scale in *. rewrite (proj2 (Z.ltb_ge e0 0) He0) in C.
    rewrite (proj2 (Z.ltb_ge (e0 + 1) 0)) by lia.
    apply Qle_shift_div_l; [apply inject_Z_pos, pow2_pos; lia|].
    apply le_div_mult in C; [|apply inject_Z_pos, pow2_pos; lia].
    rewrite <- inject_Z_mult in *.
    replace (2 ^ 52 * 2 ^ (e0 + 1))%Z with (2 ^ 53 * 2 ^ e0)%Z; [exact C|].
    rewrite Z.pow_add_r by lia. change (2 ^ 53)%Z with (2 ^ 52 * 2 ^ 1)%Z. ring.
  - rewrite Z.max_l in * by lia.
    unfold scale. rewrite (proj2 (Z.ltb_ge e0 0)) by lia.
    apply Qle_shift_div_l; [apply inject_Z_pos, pow2_pos; lia|].
    rewrite <- inject_Z_mult.
    destruct (Z.log2_spec n Hn) as [Hn1 _].
    destruct (Z.log2_spec (Z.pos d) eq_refl) as [_ Hd2].
    pose proof (Z.log2_nonneg (Z.pos d)) as Hb.
    assert (Hpow : (2 ^ 52 * 2 ^ e0 * 2 ^ Z.succ (Z.log2 (Z.pos d)) = 2 ^ Z.log2 n)%Z).
    { rewrite <- !Z.pow_add_r by lia. f_equal. unfold e0. lia. }
    unfold Qle. cbn [Qnum Qden inject_Z]. rewrite Z.mul_1_r.
    assert (Hp : (0 < 2 ^ 52 * 2 ^ e0)%Z).
    { apply Z.mul_pos_pos; apply pow2_pos; lia. }
    nia.
Qed.

(** Rounding a positive [x] to binary64 does not go past an integer
    [m < 2 ^ 53] above it (such an integer is a binary64 value). *)
Lemma round_pos_le_int (x : Q) (m : Z) :
  0 < x -> x <= inject_Z m -> (m < 2 ^ 53)%Z -> round_pos x <= inject_Z m.
Proof.
  intros Hx Hm Hm53. unfold round_pos.
  set (e := double_exponent x).
  destruct (Z_lt_le_dec e 0) as [Hneg|Hpos].
  - unfold unscale, scale in *. rewrite (proj2 (Z.ltb_lt e 0) Hneg).
    set (p := (2 ^ (- e))%Z).
    assert (Hp : (0 < p)%Z) by (apply pow2_pos; lia).
    assert (Hr : (round_half_even (x * inject_Z p) <= m * p)%Z).
    { apply round_half_even_bounds.
      - apply Qmult_le_0_compat; [lra|]. apply Qlt_le_weak, inject_Z_pos, Hp.
      - rewrite inject_Z_mult. apply Qmult_le_compat_r; [exact Hm|].
        apply Qlt_le_weak, inject_Z_pos, Hp. }
    apply Qle_shift_div_r; [apply inject_Z_pos, Hp|].
    rewrite <- inject_Z_mult. rewrite <- Zle_Qle. exact Hr.
  - destruct (Z.eq_dec e 0%Z) as [He0|He0].
    + rewrite He0. unfold unscale, scale. cbn [Z.ltb Z.compare].
      change (2 ^ 0)%Z with 1%Z. rewrite Z.mul_1_r.
      assert (E : x / inject_Z 1 == x) by (change (inject_Z 1) with 1; field).
      rewrite (round_half_even_comp _ _ E).
      rewrite <- Zle_Qle. apply round_half_even_bounds; [lra|exact Hm].
    + exfalso. pose proof (double_exponent_normal x Hx) as Hn. fold e in Hn.
      specialize (Hn ltac:(lia)).
      unfold scale in Hn. rewrite (proj2 (Z.ltb_ge e 0) Hpos) in Hn.
      apply le_div_mult in Hn; [|apply inject_Z_pos, pow2_pos; lia].
      rewrite <- inject_Z_mult in Hn.
      assert (H2 : (2 ^ 52 * 2 ^ e <= m)%Z) by (rewrite Zle_Qle; lra).
      assert (He1 : (2 ^ 1 <= 2 ^ e)%Z) by (apply Z.pow_le_mono_r; lia).
      change (2 ^ 53)%Z with (2 ^ 52 * 2 ^ 1)%Z in Hm53.
      assert (Hp52 : (0 < 2 ^ 52)%Z) by reflexivity. nia.
Qed.

Lemma to_double_comp (x y : Q) : x == y -> to_double x = to_double y.
Proof. intros H. unfold to_double. rewrite (Qred_complete x y H). reflexivity. Qed.

Lemma to_double_nonneg (x : Q) : 0 <= x -> 0 <= to_double x.
Proof.
  intros Hx. unfold to_double. pose proof (Qred_correct x) as Hr.
  destruct (Qle_bool (Qred x) 0) eqn:H1.
  - destruct (Qle_bool 0 (Qred x)) eqn:H2; [lra|].
    exfalso. assert (H : 0 <= Qred x) by lra. apply Qle_bool_iff in H. congruence.
  - unfold round_pos. unfold unscale.
    set (e := double_exponent (Qred x)).
    pose proof (round_half_even_nonneg (scale (Qred x) e)
                  (scale_nonneg (Qred x) e ltac:(lra))) as Hm.
    destruct (e <? 0)%Z eqn:He.
    + apply Qle_shift_div_l; [apply inject_Z_pos, pow2_pos; apply Z.ltb_lt in He; lia|].
      rewrite Qmult_0_l. change 0 with (inject_Z 0). rewrite <- Zle_Qle. exact Hm.
    + change 0 with (inject_Z 0). rewrite <- Zle_Qle.
      apply Z.mul_nonneg_nonneg; [exact Hm|]. apply Z.pow_nonneg. lia.
Qed.

(** A float operation whose exact result lies between 0 and an integer
    [m < 2 ^ 53] gives a float in the same interval. *)
Lemma to_double_le_int (x : Q) (m : Z) :
  0 <= x -> x <= inject_Z m -> (m < 2 ^ 53)%Z -> (0 <= m)%Z ->
  to_double x <= inject_Z m.
Proof.
  intros Hx Hm Hm53 Hm0. unfold to_double. pose proof (Qred_correct x) as Hr.
  assert (H0 : 0 <= inject_Z m) by (change 0 with (inject_Z 0); rewrite <- Zle_Qle; exact Hm0).
  destruct (Qle_bool (Qred x) 0) eqn:H1.
  - destruct (Qle_bool 0 (Qred x)) eqn:H2; [exact H0|].
    exfalso. assert (H : 0 <= Qred x) by lra. apply Qle_bool_iff in H. congruence.
  - apply round_pos_le_int; [|lra|exact Hm53].
    apply Qnot_le_lt. intros H. apply Qle_bool_iff in H. congruence.
Qed.

Lemma py_round2_percent (x : Q) :
  0 <= x -> x <= 100 -> 0 <= py_round2 x /\ py_round2 x <= 100.
Proof.
  intros H0 H1. unfold py_round2.
  destruct (round_half_even_bounds (x * 100) 10000) as [Hl Hu];
    [lra|change (inject_Z 10000) with 10000; lra|].
  rewrite Zle_Qle in Hl, Hu.
  set (R := inject_Z (round_half_even (x * 100))) in *.
  assert (HR : R / 100 == R * (1 # 100)) by reflexivity.
  change (inject_Z 0) with 0 in Hl. change (inject_Z 10000) with 10000 in Hu.
  split.
  - apply to_double_nonneg. rewrite HR. lra.
  - apply (to_double_le_int _ 100); [rewrite HR; lra|
      change (inject_Z 100) with 100; rewrite HR; lra|reflexivity|lia].
Qed.

Lemma hit_ratio_bounds (h m : nat) :
  (0 < h + m)%nat ->
  0 <= inject_Z (Z.of_nat h) / inject_Z (Z.of_nat (h + m)) /\
  inject_Z (Z.of_nat h) / inject_Z (Z.of_nat (h + m)) <= 1.
Proof.
  intros Ht.
  assert (HT : 0 < inject_Z (Z.of_nat (h + m))) by (apply inject_Z_pos; lia).
  assert (Hh : 0 <= inject_Z (Z.of_nat h)) by apply inject_Z_of_nat_nonneg.
  assert (Hhm : inject_Z (Z.of_nat h) <= inject_Z (Z.of_nat (h + m)))
    by (rewrite <- Zle_Qle; lia).
  split; [apply Qle_shift_div_l|apply Qle_shift_div_r]; lra.
Qed.

(** The float [hit_rate] of [get_metrics], before [round(.., 2)], is in
    [0, 100]. *)
Lemma hit_rate_float_bounds (h m : nat) :
  (0 < h + m)%nat ->
  let x := to_double (to_double (inject_Z (Z.of_nat h) /
                                 inject_Z (Z.of_nat (h + m))) * 100) in
  0 <= x /\ x <= 100.
Proof.
  intros Ht x. destruct (hit_ratio_bounds h m Ht) as [H0 H1].
  set (r := inject_Z (Z.of_nat h) / inject_Z (Z.of_nat (h + m))) in *.
  assert (Hr0 : 0 <= to_double r) by (apply to_double_nonneg, H0).
  assert (Hr1 : to_double r <= 1)
    by (apply (to_double_le_int r 1); [exact H0|exact H1|reflexivity|lia]).
  split.
  - apply to_double_nonneg. lra.
  - apply (to_double_le_int _ 100); [lra|change (inject_Z 100) with 100; lra
                                    |reflexivity|lia].
Qed.

(** X8: [hit_rate_percent] of [/metrics] is always in [0, 100]; it is 0
    when there has been no cache hit (in particular before any query) and
    100 when every query so far was a hit. *)
Theorem get_metrics_hit_rate (st : state) :
  (0 <= hit_rate_percent (get_metrics st) /\
   hit_rate_percent (get_metrics st) <= 100) /\
  (cache_hits st = 0%nat -> hit_rate_percent (get_metrics st) == 0) /\
  (cache_misses st = 0%nat -> cache_hits st <> 0%nat ->
   hit_rate_percent (get_metrics st) == 100).
Proof.
  unfold get_metrics. cbn [hit_rate_percent].
  destruct (Nat.ltb 0 (cache_hits st + cache_misses st)) eqn:Ht.
  - apply Nat.ltb_lt in Ht. split; [|split].
    + destruct (hit_rate_float_bounds _ _ Ht). apply py_round2_percent; assumption.
    + intros Hh. rewrite Hh.
      rewrite (to_double_comp (inject_Z (Z.of_nat 0) /
                               inject_Z (Z.of_nat (0 + cache_misses st))) 0)
        by (cbn [Z.of_nat inject_Z]; unfold Qdiv; apply Qmult_0_l).
      reflexivity.
    + intros Hm Hh. rewrite Hm, Nat.add_0_r.
      rewrite (to_double_comp (inject_Z (Z.of_nat (cache_hits st)) /
                               inject_Z (Z.of_nat (cache_hits st))) 1).
      * reflexivity.
      * assert (HT : ~ inject_Z (Z.of_nat (cache_hits st)) == 0).
        { change 0 with (inject_Z 0). rewrite inject_Z_injective. lia. }
        field. exact HT.
  - apply Nat.ltb_ge in Ht.
    assert (Hh : cache_hits st = 0%nat) by lia.
    assert (Hz : py_round2 0 == 0) by reflexivity.
    rewrite Hz. split; [lra|]. split; [intros; lra|intros _ Hn; congruence].
Qed.

(** For 23 hits and 137 misses, [/metrics] reports the float [14.37], as
    CPython does ([23 / 160 * 100] is the float just below [14.375]). *)
Lemma get_metrics_sample :
  hit_rate_percent (get_metrics (mk_state ∅ 23 137)) = to_double (1437 # 100).
Proof. vm_compute. reflexivity. Qed.

(** ** Ranking of [simple_search] *)

Lemma sorted_head_ge a l y :
  sorted_desc (a :: l) = true -> In y l -> relevance y <= relevance a.
Proof.
  revert a. induction l as [|b l IH]; intros a Hs Hin; [destruct Hin|].
  apply sorted_desc_cons in Hs as [Hba Hs]. cbn [hd_le] in Hba.
  destruct Hin as [<-|Hin]; [exact Hba|].
  apply (Qle_trans _ (relevance b)); [apply IH; assumption|exact Hba].
Qed.

Lemma sorted_app_ge l1 l2 x y :
  sorted_desc (l1 ++ l2) = true -> In x l1 -> In y l2 ->
  relevance y <= relevance x.
Proof.
  induction l1 as [|a l1 IH]; intros Hs Hx Hy; [destruct Hx|].
  cbn [app] in Hs. destruct Hx as [<-|Hx].
  - apply (sorted_head_ge _ _ _ Hs). apply in_or_app. right. exact Hy.
  - apply sorted_desc_cons in Hs as [_ Hs]. apply IH; assumption.
Qed.

Lemma collect_complete q_lower data r :
  In r data -> 0 < rule_relevance q_lower r ->
  In (mk_scored r (py_min (rule_relevance q_lower r) 1)) (collect q_lower data).
Proof.
  intros Hin Hpos. induction data as [|r0 data IH]; [destruct Hin|].
  cbn [collect]. destruct Hin as [->|Hin].
  - replace (Qle_bool (rule_relevance q_lower r) 0) with false.
    + left. reflexivity.
    + symmetry. apply not_true_iff_false. rewrite Qle_bool_iff. lra.
  - destruct (Qle_bool _ 0); [|right]; apply IH, Hin.
Qed.

(** X10: [simple_search] keeps the best matches: a rule of the corpus with
    a positive score that is left out of the output means the output has
    [n_results] hits, each scoring at least as high as the left-out rule. *)
Theorem simple_search_top_n (data : list rule) (q : str) (n : nat) (r : rule) :
  In r data -> 0 < rule_relevance (lower q) r ->
  ~ In r (map s_rule (simple_search data q n)) ->
  length (simple_search data q n) = n /\
  forall x, In x (simple_search data q n) -> lexical_score q r <= relevance x.
Proof.
  intros Hin Hpos Hout. unfold simple_search in *. unfold lexical_score.
  set (L := sort_desc (collect (lower q) data)) in *.
  set (s := mk_scored r (py_min (rule_relevance (lower q) r) 1)).
  assert (HsL : In s L) by (apply sort_desc_in, collect_complete; assumption).
  assert (Hs1 : ~ In s (firstn n L)).
  { intros H. apply Hout. change r with (s_rule s). apply in_map, H. }
  assert (Hs2 : In s (skipn n L)).
  { rewrite <- (firstn_skipn n L) in HsL. apply in_app_or in HsL. tauto. }
  split.
  - rewrite length_firstn.
    assert (length (skipn n L) <> 0%nat)
      by (intros H; apply length_zero_iff_nil in H; rewrite H in Hs2; destruct Hs2).
    rewrite length_skipn in *. lia.
  - intros x Hx. change (py_min (rule_relevance (lower q) r) 1) with (relevance s).
    apply (sorted_app_ge (firstn n L) (skipn n L)); [|exact Hx|exact Hs2].
    rewrite firstn_skipn. apply sort_desc_sorted.
Qed.

(** ** Documents of [prepare_data.py] against [chroma_search] *)

Lemma prefixb_app (p s : str) : prefixb p (p ++ s) = true.
Proof.
  induction p as [|a p IH]; [reflexivity|]. cbn [app prefixb].
  rewrite N.eqb_refl. exact IH.
Qed.

Lemma is_substring_prefix (p s : str) : is_substring p (p ++ s) = true.
Proof.
  destruct (p ++ s) as [|c h] eqn:E; cbn [is_substring];
    rewrite <- E, prefixb_app; reflexivity.
Qed.

Lemma find_rule_full_text (r : rule) (data : list rule) :
  In r data -> find_rule (full_text r) data <> None.
Proof.
  induction data as [|r0 data IH]; intros Hin; [destruct Hin|].
  cbn [find_rule].
  destruct (is_substring (content r0) (full_text r) ||
            is_substring (title r0) (full_text r)) eqn:Hm; [discriminate|].
  destruct Hin as [->|Hin]; [|apply IH, Hin].
  unfold full_text in Hm. rewrite is_substring_prefix, orb_true_r in Hm.
  discriminate.
Qed.

Lemma chroma_loop_all_found data dists docs i :
  Forall (fun d => find_rule d data <> None) docs ->
  (dists = [] \/ exists d0 dr, dists = d0 :: dr /\ (i + length docs <= length d0)%nat) ->
  exists res, chroma_loop data dists docs i = Some res /\
    Forall2 (fun doc x => find_rule doc data = Some (s_rule x)) docs res.
Proof.
  revert i. induction docs as [|doc docs IH]; intros i Hf Hd.
  - exists []. split; constructor.
  - inversion Hf as [|? ? Hdoc Hf']; subst.
    destruct (IH (S i) Hf') as (rest & Hl & Hr).
    { destruct Hd as [->|(d0 & dr & -> & Hle)]; [left; reflexivity|].
      right. exists d0, dr. cbn [length] in Hle. split; [reflexivity|lia]. }
    destruct (find_rule doc data) as [r|] eqn:Hr0; [|congruence].
    assert (Hdist : exists dist, match dists with [] => Some 1
                                 | d0 :: _ => nth_error d0 i end = Some dist).
    { destruct Hd as [->|(d0 & dr & -> & Hle)]; [eexists; reflexivity|].
      destruct (nth_error d0 i) as [dist|] eqn:Hn; [eexists; reflexivity|].
      apply nth_error_None in Hn. cbn [length] in Hle. lia. }
    destruct Hdist as [dist Hdist].
    exists (mk_scored r (1 - py_min dist 1) :: rest). split.
    + cbn [chroma_loop]. rewrite Hr0, Hdist, Hl. reflexivity.
    + constructor; [exact Hr0|exact Hr].
Qed.

Lemma prepared_document_found (rules : list typed_rule) (doc : str) :
  In doc (snd (fst (prepare_documents rules))) ->
  find_rule doc (map base rules) <> None.
Proof.
  cbn [prepare_documents fst snd]. intros Hdoc.
  apply in_map_iff in Hdoc as (tr & <- & Htr).
  apply find_rule_full_text, in_map, Htr.
Qed.

(** X11: every document [prepare_documents] builds from a list of rules
    ([title. content]) is recognised by the rule lookup of
    [chroma_search] on those rules: it is never skipped. *)
Theorem prepared_documents_found (rules : list typed_rule) :
  Forall (fun doc => find_rule doc (map base rules) <> None)
         (snd (fst (prepare_documents rules))).
Proof.
  apply List.Forall_forall. apply prepared_document_found.
Qed.

(** X12: when the collection holds documents prepared from the rules the
    server serves, and the backend returns a distance for each document it
    returns (or no distances at all), [chroma_search] turns each returned
    document into exactly one hit, in the backend's order, for the first
    rule whose content or title occurs in the document. *)
Theorem chroma_search_prepared_collection (e : env) (q : str) (n : nat)
  (qr : query_result) (docs : list str) (rest : list (list str))
  (rules : list typed_rule) :
  client e = true -> PDD_DATA e = map base rules ->
  chroma_query e q n = ChromaReturns qr -> documents qr = docs :: rest ->
  Forall (fun d => In d (snd (fst (prepare_documents rules)))) docs ->
  (distances qr = [] \/
   exists d0 dr, distances qr = d0 :: dr /\ (length docs <= length d0)%nat) ->
  Forall2 (fun doc x => find_rule doc (PDD_DATA e) = Some (s_rule x))
          docs (chroma_search e q n).
Proof.
  intros Hc Hdata Hq Hdocs Hin Hd.
  assert (Hf : Forall (fun d => find_rule d (PDD_DATA e) <> None) docs).
  { apply List.Forall_forall. intros d Hd'. rewrite Hdata.
    apply prepared_document_found.
    exact (proj1 (List.Forall_forall _ _) Hin d Hd'). }
  destruct (chroma_loop_all_found (PDD_DATA e) (distances qr) docs 0 Hf Hd)
    as (res & Hl & Hr).
  unfold chroma_search. rewrite Hc, Hq, Hdocs. cbn [negb]. rewrite Hl. exact Hr.
Qed.

(** ** [strip()] and the cache key *)

(** X13: the cache key of a question is the same whether or not it has
    been stripped first ([ask_question] strips before computing it), and
    [strip()] is idempotent. *)
Theorem cache_key_strip md5 (raw : str) :
  get_cache_key md5 (strip raw) = get_cache_key md5 raw /\
  strip (strip raw) = strip raw.
Proof.
  split; [|apply strip_idem].
  unfold get_cache_key. rewrite !strip_lower, strip_idem. reflexivity.
Qed.

(** ** Witnesses of the further properties *)

Lemma run_asks_keeps_cache_entries_witness :
  answer_cache c5_state !! get_cache_key hashlib_md5_hexdigest (strip c5_q1) = Some c5_answer /\
  answer_cache (snd (run_asks hashlib_md5_hexdigest lexical_env [c5_q2; txt "speed?"] c5_state))
    !! get_cache_key hashlib_md5_hexdigest (strip c5_q1) = Some c5_answer.
Proof.
  assert (H : answer_cache c5_state !! get_cache_key hashlib_md5_hexdigest (strip c5_q1) =
              Some c5_answer) by (vm_compute; reflexivity).
  split; [exact H|].
  exact (run_asks_keeps_cache_entries hashlib_md5_hexdigest lexical_env [c5_q2; txt "speed?"]
           c5_state _ _ H).
Defined.

Lemma ask_hit_env_independent_witness :
  answer_cache c5_state !! get_cache_key hashlib_md5_hexdigest (strip c5_q2) <> None /\
  ask_question hashlib_md5_hexdigest lexical_env c5_q2 c5_state =
  ask_question hashlib_md5_hexdigest (env_with_chroma (mk_query_result [] [])) c5_q2 c5_state.
Proof.
  assert (H : answer_cache c5_state !! get_cache_key hashlib_md5_hexdigest (strip c5_q2) <> None)
    by (vm_compute; discriminate).
  split; [exact H|].
  exact (ask_hit_env_independent hashlib_md5_hexdigest lexical_env
           (env_with_chroma (mk_query_result [] [])) c5_q2 c5_state H).
Defined.

Lemma ask_variant_same_lexical_witness :
  case_ws_variant c5_q1 c5_q2 /\
  ask_question hashlib_md5_hexdigest lexical_env c5_q1 empty_state =
  ask_question hashlib_md5_hexdigest lexical_env c5_q2 empty_state.
Proof.
  assert (Hv : case_ws_variant c5_q1 c5_q2).
  { exists [], c5_q1, [], (txt "  "), (txt "WHO YIELDS ON THE CIRCLE?"), (txt "   ").
    split; [reflexivity|]. split; [reflexivity|].
    do 4 (split; [apply all_space_b; vm_compute; reflexivity|]).
    apply same_case_b_sound. vm_compute. reflexivity. }
  split; [exact Hv|].
  apply (ask_variant_same_lexical hashlib_md5_hexdigest lexical_env c5_q1 c5_q2 empty_state);
    [reflexivity|reflexivity|exact Hv|vm_compute; reflexivity..].
Defined.


Lemma simple_search_top_n_witness :
  In ex_rule1 ex_corpus /\
  0 < rule_relevance (lower (txt "circle speed")) ex_rule1 /\
  ~ In ex_rule1 (map s_rule (simple_search ex_corpus (txt "circle speed") 1)) /\
  length (simple_search ex_corpus (txt "circle speed") 1) = 1%nat /\
  (forall x, In x (simple_search ex_corpus (txt "circle speed") 1) ->
     lexical_score (txt "circle speed") ex_rule1 <= relevance x).
Proof.
  assert (H1 : In ex_rule1 ex_corpus) by (simpl; left; reflexivity).
  assert (H2 : 0 < rule_relevance (lower (txt "circle speed")) ex_rule1)
    by (vm_compute; reflexivity).
  assert (H3 : ~ In ex_rule1 (map s_rule (simple_search ex_corpus (txt "circle speed") 1))).
  { vm_compute. intros [H|[]]. discriminate H. }
  split; [exact H1|]. split; [exact H2|]. split; [exact H3|].
  exact (simple_search_top_n ex_corpus (txt "circle speed") 1 ex_rule1 H1 H2 H3).
Defined.

Lemma chroma_search_prepared_collection_witness :
  Forall (fun d => In d (snd (fst (prepare_documents ex_typed_rules))))
         [full_text ex_rule2; full_text ex_rule1] /\
  Forall2 (fun doc x => find_rule doc ex_corpus = Some (s_rule x))
          [full_text ex_rule2; full_text ex_rule1]
          (chroma_search (env_with_chroma ex_prepared_qr) (txt "q") 3).
Proof.
  assert (Hin : Forall (fun d => In d (snd (fst (prepare_documents ex_typed_rules))))
                  [full_text ex_rule2; full_text ex_rule1]).
  { constructor; [simpl; right; left; reflexivity|].
    constructor; [simpl; left; reflexivity|constructor]. }
  split; [exact Hin|].
  apply (chroma_search_prepared_collection (env_with_chroma ex_prepared_qr) (txt "q") 3
           ex_prepared_qr [full_text ex_rule2; full_text ex_rule1] [] ex_typed_rules);
    [reflexivity|reflexivity|reflexivity|reflexivity|exact Hin|].
  right. exists [1 # 5; 2 # 5], []. split; [reflexivity|simpl; lia].
Defined.
